(** * Throttler: a shallow embedding of [src/throttler.c]

    The program samples the cumulative byte counters of one network
    interface from [/proc/net/dev], compares them with limits given on the
    command line and runs a shell command when a limit is exceeded.

    Conventions of the embedding:
    - [unsigned long long] ([llu]) values are integers of [Z] in
      [0 .. 2^64-1]; arithmetic on them is reduced modulo [2^64] where the C
      code computes it;
    - C strings are lists of characters without the terminating NUL;
    - the C library functions the program calls ([sscanf], [fgets],
      [getopt_long], [printf]) are modelled in [Module Libc] for the way the
      program uses them;
    - effects (standard output, the statistics file handle, the shell, process
      exit) are recorded in a trace of events, see [Module Throttler]. *)

From Stdlib Require Import ZArith List Bool Ascii String Lia.
From Stdlib Require Import DecimalString DecimalN.
Import ListNotations.
Local Open Scope Z_scope.

(** A C string literal. *)
Definition text := list ascii.
Definition txt (s : string) : text := list_ascii_of_string s.

Module Libc.

(** ** Character classes of the "C" locale *)

Definition isspace (c : ascii) : bool :=
  let n := nat_of_ascii c in
  (Nat.eqb n 32 || (Nat.leb 9 n && Nat.leb n 13))%bool.

Definition isdigit (c : ascii) : bool :=
  let n := nat_of_ascii c in (Nat.leb 48 n && Nat.leb n 57)%bool.

Definition digit_value (c : ascii) : Z := Z.of_nat (nat_of_ascii c) - 48.

(** ** [unsigned long long] *)

Definition ULLONG_MAX : Z := 2 ^ 64 - 1.
Definition wrap64 (z : Z) : Z := z mod 2 ^ 64.
Definition is_llu (z : Z) : Prop := 0 <= z <= ULLONG_MAX.

(** [a + b] and [a * b] on [llu] operands. *)
Definition llu_add (a b : Z) : Z := wrap64 (a + b).
Definition llu_mul (a b : Z) : Z := wrap64 (a * b).

(** ** [sscanf]

    The program uses white-space, ordinary characters, [%llu], [%*llu] and
    [%c] in its formats; these are the directives of the model. *)

Inductive directive : Type :=
| DSpace                  (* one white-space character of the format *)
| DLit (c : ascii)        (* an ordinary character *)
| DLlu (assign : bool)    (* [%llu], or [%*llu] when [assign] is false *)
| DChr.                   (* [%c] *)

(** The type of the object an assigning conversion stores into. *)
Inductive ctype : Type := TLlu | TChar.

(** A value stored through one pointer argument. *)
Inductive scanned : Type :=
| VLlu (v : Z)
| VChr (c : ascii).

(** Splits a format into directives; [None] when the format holds a
    conversion specification outside the modelled ones. The model then
    makes no statement about the call, also where C defines it (as for
    [%%] or [%*d], which an interface name can bring into the format of the
    reader). *)
Fixpoint parse_format (f : text) : option (list directive) :=
  match f with
  | [] => Some []
  | "%"%char :: "l"%char :: "l"%char :: "u"%char :: f' =>
      option_map (cons (DLlu true)) (parse_format f')
  | "%"%char :: "*"%char :: "l"%char :: "l"%char :: "u"%char :: f' =>
      option_map (cons (DLlu false)) (parse_format f')
  | "%"%char :: "c"%char :: f' =>
      option_map (cons DChr) (parse_format f')
  | "%"%char :: _ => None
  | c :: f' =>
      option_map (cons (if isspace c then DSpace else DLit c)) (parse_format f')
  end.

(** The pointer arguments a format consumes, in order. *)
Fixpoint signature (ds : list directive) : list ctype :=
  match ds with
  | [] => []
  | DLlu true :: ds' => TLlu :: signature ds'
  | DChr :: ds' => TChar :: signature ds'
  | _ :: ds' => signature ds'
  end.

Definition ctype_eqb (a b : ctype) : bool :=
  match a, b with
  | TLlu, TLlu | TChar, TChar => true
  | _, _ => false
  end.

(** [sig] is served by the supplied arguments [args]: excess arguments are
    ignored, missing or mistyped ones are undefined behaviour. *)
Fixpoint args_serve (sig args : list ctype) : bool :=
  match sig, args with
  | [], _ => true
  | t :: sig', a :: args' => (ctype_eqb t a && args_serve sig' args')%bool
  | _ :: _, [] => false
  end.

Fixpoint skip_space (s : text) : text :=
  match s with
  | c :: s' => if isspace c then skip_space s' else s
  | [] => []
  end.

(** Reads the longest run of decimal digits, accumulating its value. *)
Fixpoint read_digits (acc : Z) (s : text) : Z * text :=
  match s with
  | c :: s' =>
      if isdigit c then read_digits (10 * acc + digit_value c) s' else (acc, s)
  | [] => (acc, [])
  end.

(** The result of [strtoull] on a sign and a digit run of value [v]: the
    value saturates at [ULLONG_MAX] when it is out of range, and a minus
    sign negates in the unsigned type. *)
Definition strtoull_value (neg : bool) (v : Z) : Z :=
  if ULLONG_MAX <? v then ULLONG_MAX
  else if neg then wrap64 (- v) else v.

Inductive conversion : Type :=
| Converted (v : Z) (rest : text)
| MatchingFailure
| InputFailure.

(** The [%llu] conversion: white-space is skipped, then an optional sign and
    a non-empty run of decimal digits are read. *)
Definition conv_llu (s : text) : conversion :=
  match skip_space s with
  | [] => InputFailure
  | c :: s2 =>
      let '(neg, s3) :=
        if Ascii.eqb c "-" then (true, s2)
        else if Ascii.eqb c "+" then (false, s2)
        else (false, c :: s2) in
      match s3 with
      | d :: _ =>
          if isdigit d then
            let '(v, rest) := read_digits 0 s3 in
            Converted (strtoull_value neg v) rest
          else MatchingFailure
      | [] => MatchingFailure
      end
  end.

Definition EOF : Z := -1.

(** The value [sscanf] returns when it stops: [EOF] on an input failure
    before the first conversion has completed, the number of assignments
    otherwise. *)
Definition stop_count (input_failure converted : bool) (acc : list scanned) : Z :=
  if (input_failure && negb converted)%bool then EOF
  else Z.of_nat (List.length acc).

(** Runs the directives over the input. [acc] holds the values assigned so
    far, [converted] tells whether a conversion has completed. *)
Fixpoint run_scan (ds : list directive) (s : text)
                  (acc : list scanned) (converted : bool) : Z * list scanned :=
  match ds with
  | [] => (stop_count false converted acc, acc)
  | DSpace :: ds' => run_scan ds' (skip_space s) acc converted
  | DLit c :: ds' =>
      match s with
      | [] => (stop_count true converted acc, acc)
      | x :: s' =>
          if Ascii.eqb x c then run_scan ds' s' acc converted
          else (stop_count false converted acc, acc)
      end
  | DLlu assign :: ds' =>
      match conv_llu s with
      | InputFailure => (stop_count true converted acc, acc)
      | MatchingFailure => (stop_count false converted acc, acc)
      | Converted v rest =>
          run_scan ds' rest (if assign then acc ++ [VLlu v] else acc) true
      end
  | DChr :: ds' =>
      match s with
      | [] => (stop_count true converted acc, acc)
      | x :: s' => run_scan ds' s' (acc ++ [VChr x]) true
      end
  end.

(** [sscanf input format args]: the returned count and the values stored
    through the pointer arguments, in argument order. [None] when the model
    gives no answer: the format leaves the modelled directives, or it asks
    for arguments that were not supplied with that type, which is undefined
    behaviour. *)
Definition sscanf (input format : text) (args : list ctype)
  : option (Z * list scanned) :=
  match parse_format format with
  | None => None
  | Some ds =>
      if args_serve (signature ds) args then Some (run_scan ds input [] false)
      else None
  end.


(** ** C strings and [fgets] *)

Definition NUL : ascii := ascii_of_nat 0.
Definition newline : ascii := ascii_of_nat 10.

(** The C string held in a buffer: its content up to the first NUL. *)
Fixpoint c_str (buf : text) : text :=
  match buf with
  | c :: buf' => if Ascii.eqb c NUL then [] else c :: c_str buf'
  | [] => []
  end.

(** Reads at most [room] characters, stopping after a newline: the
    characters read and the rest of the stream. *)
Fixpoint fgets_chars (room : nat) (stream : text) : text * text :=
  match room, stream with
  | S room', c :: stream' =>
      if Ascii.eqb c newline then ([c], stream')
      else let '(b, rest) := fgets_chars room' stream' in (c :: b, rest)
  | _, _ => ([], stream)
  end.

(** [fgets(buf, size, file)]: [None] (a null pointer) at end of file,
    otherwise the content of [buf] and the rest of the stream. *)
Definition fgets (size : nat) (stream : text) : option (text * text) :=
  match stream with
  | [] => None
  | _ :: _ => Some (fgets_chars (size - 1) stream)
  end.

Definition push_char (c : ascii) (bufs : list text) : list text :=
  match bufs with
  | [] => [[c]]
  | b :: bufs' => (c :: b) :: bufs'
  end.

(** The buffers that successive calls [fgets(buf, size, file)] deliver until
    end of file; [room] is what the call in progress may still read. See
    [fgets_buffers_unfold] for the relation with [fgets]. *)
Fixpoint fgets_buffers (size room : nat) (stream : text) : list text :=
  match stream with
  | [] => []
  | c :: stream' =>
      if (Ascii.eqb c newline || Nat.leb room 1)%bool
      then [c] :: fgets_buffers size (size - 1) stream'
      else push_char c (fgets_buffers size (room - 1) stream')
  end.

(** ** [printf] conversions *)

(** [%llu] *)
Definition print_llu (z : Z) : text :=
  txt (NilZero.string_of_uint (N.to_uint (Z.to_N z))).

Fixpoint octal_digits (fuel : nat) (n : Z) (acc : text) : text :=
  match fuel with
  | O => acc
  | S fuel' =>
      let acc' := ascii_of_nat (48 + Z.to_nat (n mod 8)) :: acc in
      if n / 8 =? 0 then acc' else octal_digits fuel' (n / 8) acc'
  end.

(** [%o] of an [int], converted to [unsigned int] as the C library does. *)
Definition print_octal (z : Z) : text := octal_digits 11 (z mod 2 ^ 32) [].

(** ** [getopt_long]

    A model of GNU [getopt_long] in its default mode (arguments are
    permuted so that the non-options come last, [POSIXLY_CORRECT] is not
    set): the values the successive calls return together with [optarg],
    and the operands [argv[optind..argc-1]] left when it returns [-1]. Its
    own messages on standard error are not recorded. *)

Inductive has_arg : Type := no_argument | required_argument.

Record long_option : Type :=
  { lo_name : text; lo_has_arg : has_arg; lo_val : Z }.

(** One call that did not return [-1]. *)
Record getopt_ret : Type := { opt : Z; optarg : option text }.

Definition char_code (c : ascii) : Z := Z.of_nat (nat_of_ascii c).

(** The value returned for an unknown option or a missing argument. *)
Definition opt_error : getopt_ret :=
  {| opt := char_code "?"; optarg := None |}.

Fixpoint short_lookup (optstring : text) (c : ascii) : option has_arg :=
  match optstring with
  | [] => None
  | x :: rest =>
      if Ascii.eqb x c then
        Some (match rest with
              | ":"%char :: _ => required_argument
              | _ => no_argument
              end)
      else short_lookup rest c
  end.

(** The options of one argument ["-abc"] ([cluster] is ["abc"]); [next] is
    the following element of [argv]. The boolean tells whether [next] was
    taken as an option argument. *)
Fixpoint short_cluster (optstring cluster : text) (next : option text)
  : list getopt_ret * bool :=
  match cluster with
  | [] => ([], false)
  | c :: cluster' =>
      let found :=
        if (Ascii.eqb c ":" || Ascii.eqb c ";")%bool then None
        else short_lookup optstring c in
      match found with
      | None =>
          let '(rs, used) := short_cluster optstring cluster' next in
          (opt_error :: rs, used)
      | Some no_argument =>
          let '(rs, used) := short_cluster optstring cluster' next in
          ({| opt := char_code c; optarg := None |} :: rs, used)
      | Some required_argument =>
          match cluster', next with
          | _ :: _, _ =>
              ([{| opt := char_code c; optarg := Some cluster' |}], false)
          | [], Some a =>
              ([{| opt := char_code c; optarg := Some a |}], true)
          | [], None => ([opt_error], false)
          end
      end
  end.

Fixpoint is_prefix (p s : text) : bool :=
  match p, s with
  | [], _ => true
  | x :: p', y :: s' => (Ascii.eqb x y && is_prefix p' s')%bool
  | _ :: _, [] => false
  end.

Definition text_eqb (a b : text) : bool :=
  (is_prefix a b && is_prefix b a)%bool.

(** Splits ["name=value"] at the first ['=']. *)
Fixpoint split_eq (s : text) : text * option text :=
  match s with
  | [] => ([], None)
  | c :: s' =>
      if Ascii.eqb c "=" then ([], Some s')
      else let '(n, v) := split_eq s' in (c :: n, v)
  end.

(** The table entry a long option name selects: an exact match, else the
    only entry the name abbreviates. *)
Definition long_lookup (longopts : list long_option) (name : text)
  : option long_option :=
  match filter (fun o => text_eqb name (lo_name o)) longopts with
  | o :: _ => Some o
  | [] =>
      match filter (fun o => is_prefix name (lo_name o)) longopts with
      | [o] => Some o
      | _ => None
      end
  end.

(** The option of one argument ["--body"]. *)
Definition long_arg (longopts : list long_option) (body : text)
                    (next : option text) : getopt_ret * bool :=
  let '(name, value) := split_eq body in
  match long_lookup longopts name with
  | None => (opt_error, false)
  | Some o =>
      match lo_has_arg o, value, next with
      | no_argument, None, _ => ({| opt := lo_val o; optarg := None |}, false)
      | no_argument, Some _, _ => (opt_error, false)
      | required_argument, Some v, _ =>
          ({| opt := lo_val o; optarg := Some v |}, false)
      | required_argument, None, Some a =>
          ({| opt := lo_val o; optarg := Some a |}, true)
      | required_argument, None, None => (opt_error, false)
      end
  end.

(** All calls over the arguments after [argv[0]]. [taken] tells that the
    head of [args] was consumed as the argument of the previous option. *)
Fixpoint getopt_args (optstring : text) (longopts : list long_option)
                     (args : list text) (taken : bool)
  : list getopt_ret * list text :=
  match args with
  | [] => ([], [])
  | a :: args' =>
      if taken then getopt_args optstring longopts args' false
      else
        match a with
        | ["-"%char; "-"%char] => ([], args')
        | "-"%char :: "-"%char :: body =>
            let '(r, used) := long_arg longopts body (hd_error args') in
            let '(rs, operands) := getopt_args optstring longopts args' used in
            (r :: rs, operands)
        | "-"%char :: c :: cluster =>
            let '(rs1, used) :=
              short_cluster optstring (c :: cluster) (hd_error args') in
            let '(rs, operands) := getopt_args optstring longopts args' used in
            (rs1 ++ rs, operands)
        | _ =>
            let '(rs, operands) :=
              getopt_args optstring longopts args' false in
            (rs, a :: operands)
        end
  end.

Definition getopt_long (argv : list text) (optstring : text)
                       (longopts : list long_option)
  : list getopt_ret * list text :=
  getopt_args optstring longopts (tl argv) false.

End Libc.

Module Throttler.
Import Libc.

(** ** Effects *)

(** What the process does to the outside, in order. *)
Inductive event : Type :=
| EvPrint (s : text)            (* [printf] on standard output *)
| EvOpen                        (* [fopen(NETFILE, "r")] succeeded *)
| EvClose                       (* [fclose(file)] *)
| EvSystem (cmd : option text). (* [system(cmd)]; [None] is a null pointer *)

(** How a computation ends: it returns to its caller, it ends the process
    through [exit(status)], or its behaviour is not defined (undefined
    behaviour of C, or a [sscanf] format outside the model). The trace holds
    the calls the program makes: a stream still open at [exit] is left to
    the C library, which closes it when the process ends. *)
Inductive result (A : Type) : Type :=
| Ret (a : A)
| Exit (status : Z)
| Undef.
Arguments Ret {A} a.
Arguments Exit {A} status.
Arguments Undef {A}.

Definition M (A : Type) : Type := list event * result A.

Definition ret {A} (a : A) : M A := ([], Ret a).
Definition exit {A} (status : Z) : M A := ([], Exit status).
Definition undef {A} : M A := ([], Undef).
Definition emit (e : event) : M unit := ([e], Ret tt).
Definition printf (s : text) : M unit := emit (EvPrint s).

Definition bind {A B} (m : M A) (k : A -> M B) : M B :=
  match m with
  | (t, Ret a) => let '(t', r) := k a in (t ++ t', r)
  | (t, Exit status) => (t, Exit status)
  | (t, Undef) => (t, Undef)
  end.

Notation "x <- m ;; k" := (bind m (fun x => k))
  (at level 61, m at next level, right associativity).
Notation "m ;; k" := (bind m (fun _ => k))
  (at level 61, right associativity).
Notation "' p <- m ;; k" := (bind m (fun x => match x with p => k end))
  (at level 61, p pattern, m at next level, right associativity).

(** ** The program *)

Definition VERSION_STR : text := txt "0.1".
Definition NETFILE : text := txt "/proc/net/dev".

(** [struct options_t]; the two strings are pointers that may be null. *)
Record options_t : Type :=
  { max_up : Z;
    max_down : Z;
    max_total : Z;
    interface : option text;
    action : option text }.

(** [static struct options_t options = {0, 0, 0, NULL, NULL};] *)
Definition options_init : options_t :=
  {| max_up := 0; max_down := 0; max_total := 0;
     interface := None; action := None |}.

Definition set_max_up (o : options_t) (v : Z) : options_t :=
  {| max_up := v; max_down := max_down o; max_total := max_total o;
     interface := interface o; action := action o |}.
Definition set_max_down (o : options_t) (v : Z) : options_t :=
  {| max_up := max_up o; max_down := v; max_total := max_total o;
     interface := interface o; action := action o |}.
Definition set_max_total (o : options_t) (v : Z) : options_t :=
  {| max_up := max_up o; max_down := max_down o; max_total := v;
     interface := interface o; action := action o |}.
Definition set_interface (o : options_t) (s : option text) : options_t :=
  {| max_up := max_up o; max_down := max_down o; max_total := max_total o;
     interface := s; action := action o |}.
Definition set_action (o : options_t) (s : option text) : options_t :=
  {| max_up := max_up o; max_down := max_down o; max_total := max_total o;
     interface := interface o; action := s |}.

Definition tab : text := [ascii_of_nat 9].
Definition nl : text := [newline].

(** [void display_help()] *)
Definition help_text : text :=
  txt "Throttler " ++ VERSION_STR ++ nl ++
  txt "Author: Marius Graefe" ++ nl ++
  txt "Usage:" ++ nl ++
  tab ++ txt "throttler [{OPTIONS}] interface action" ++ nl ++ nl ++
  txt "Options:" ++ nl ++
  tab ++ txt "-u | --max-upload limit" ++ nl ++
  tab ++ tab ++ txt "Specify upload limit" ++ nl ++
  tab ++ txt "-d | --max-down limit" ++ nl ++
  tab ++ tab ++ txt "Specify download limit" ++ nl ++
  tab ++ txt "-t | --max-total limit" ++ nl ++
  tab ++ tab ++ txt "Specify limit of up- and download combined" ++ nl ++
  tab ++ txt "-h | --help" ++ nl ++
  tab ++ tab ++ txt "Display this help message" ++ nl ++
  tab ++ txt "-v | --version" ++ nl ++
  tab ++ tab ++ txt "Display version information" ++ nl ++
  txt "Limits are measured in bytes and may be specified with the following suffixes:" ++ nl ++
  tab ++ txt "k or K for Kilobytes, m or M for Megabytes, g or G for Gigabytes, t or T for Terabytes." ++ nl ++
  tab ++ txt "If no suffix is specified pure bytes are assumed." ++ nl ++
  tab ++ txt "Example: throttler eth0 -u 10G -d 10G -t 15G 'echo Throttle'" ++ nl ++
  txt "If called without any limits it simply outputs the number of bytes received and transmitted on the specified interface" ++ nl.

Definition display_help : M unit := printf help_text.

(** [void display_version()] *)
Definition display_version : M unit :=
  printf (txt "Throttler " ++ VERSION_STR ++ nl).

(** [llu get_unit_factor(char unit)] *)
Definition get_unit_factor (unit : ascii) : Z :=
  if (Ascii.eqb unit "k" || Ascii.eqb unit "K")%bool then Z.shiftl 1 10
  else if (Ascii.eqb unit "m" || Ascii.eqb unit "M")%bool then Z.shiftl 1 20
  else if (Ascii.eqb unit "g" || Ascii.eqb unit "G")%bool then Z.shiftl 1 30
  else if (Ascii.eqb unit "t" || Ascii.eqb unit "T")%bool then Z.shiftl 1 40
  else 1.

(** [int get_bytes_formatted(const char *arg, llu *bytes)]: the returned
    [int] and the content of [*bytes] after the call, [bytes] being its
    content before. [sscanf] stores through [bytes] and [&unit] as far as it
    assigns. *)
Definition get_bytes_formatted (arg : text) (bytes : Z) : option (Z * Z) :=
  match sscanf arg (txt "%llu%c") [TLlu; TChar] with
  | None => None
  | Some (n, stores) =>
      let bytes1 := match stores with VLlu v :: _ => v | _ => bytes end in
      if (negb (n =? 1) && negb (n =? 2))%bool then Some (0, bytes1)
      else if n =? 2 then
        match stores with
        | [_; VChr unit] => Some (1, llu_mul bytes1 (get_unit_factor unit))
        | _ => None
        end
      else Some (1, bytes1)
  end.

(** The table and the option string of [parse_cmd_line]. *)
Definition long_options : list long_option :=
  [ {| lo_name := txt "max-up";    lo_has_arg := required_argument; lo_val := char_code "u" |};
    {| lo_name := txt "max-down";  lo_has_arg := required_argument; lo_val := char_code "d" |};
    {| lo_name := txt "max-total"; lo_has_arg := required_argument; lo_val := char_code "t" |};
    {| lo_name := txt "help";      lo_has_arg := no_argument;       lo_val := char_code "h" |};
    {| lo_name := txt "version";   lo_has_arg := no_argument;       lo_val := char_code "v" |} ].

Definition optstring : text := txt "u:d:t:hv".

(** One limit option: [if (!get_bytes_formatted(optarg, field)) printf(msg)].
    [optarg] null makes [sscanf] read through a null pointer. *)
Definition limit_option (r : getopt_ret) (field : Z) (msg : text) : M Z :=
  match optarg r with
  | None => undef
  | Some arg =>
      match get_bytes_formatted arg field with
      | None => undef
      | Some (ok, field') =>
          (if ok =? 0 then printf msg else ret tt) ;;
          ret field'
      end
  end.

(** The [while (1)] loop of [parse_cmd_line] over the values that
    [getopt_long] returns before it returns [-1]. *)
Fixpoint parse_options (rets : list getopt_ret) (o : options_t) : M options_t :=
  match rets with
  | [] => ret o
  | r :: rets' =>
      if opt r =? char_code "u" then
        v <- limit_option r (max_up o)
               (txt "Invalid argument for max upload" ++ nl) ;;
        parse_options rets' (set_max_up o v)
      else if opt r =? char_code "d" then
        v <- limit_option r (max_down o)
               (txt "Invalid argument for max download" ++ nl) ;;
        parse_options rets' (set_max_down o v)
      else if opt r =? char_code "t" then
        v <- limit_option r (max_total o)
               (txt "Invalid argument for max download" ++ nl) ;;
        parse_options rets' (set_max_total o v)
      else if opt r =? char_code "v" then
        display_version ;; exit 0
      else if opt r =? char_code "h" then
        display_help ;; exit 0
      else
        printf (txt "?? getopt returned character code 0" ++ print_octal (opt r)
                ++ txt " ??" ++ nl) ;;
        parse_options rets' o
  end.

(** The end of [parse_cmd_line], after the loop: [operands] is
    [argv[optind..argc-1]]. *)
Definition parse_operands (operands : list text) (o : options_t) : M options_t :=
  match operands with
  | [] =>
      printf (txt "Missing interface specifier - call with --help to get information" ++ nl) ;;
      exit 1
  | i :: operands' =>
      let o1 := set_interface o (Some i) in
      match operands' with
      | [] => ret o1
      | a :: _ => ret (set_action o1 (Some a))
      end
  end.

(** [parse_cmd_line] on what [getopt_long] delivers. *)
Definition parse_cmd_line_on (g : list getopt_ret * list text) (o : options_t)
  : M options_t :=
  o1 <- parse_options (fst g) o ;;
  parse_operands (snd g) o1.

(** [void parse_cmd_line(int argc, char **argv, struct options_t *options)]:
    the content of [*options] after the call. *)
Definition parse_cmd_line (argv : list text) (o : options_t) : M options_t :=
  parse_cmd_line_on (getopt_long argv optstring long_options) o.

(** The format [get_dev_rx_tx] builds with [strcpy] and [strcat]. *)
Definition dev_format (interface : text) : text :=
  txt " " ++ interface ++
  txt ": %llu %*llu %*llu %*llu %*llu %*llu %*llu %*llu " ++
  txt "%llu %*llu %*llu %*llu %*llu %*llu %*llu %*llu".

Inductive lookup : Type :=
| Found (bytes_rx bytes_tx : Z)
| NotFound
| Unspecified.

(** The [while (fgets(buf, 256, file))] loop over the buffers [fgets]
    delivers: it stops at the first buffer on which [sscanf] returns 2, with
    the two values that call stored. What a call that returns less has stored
    in [*bytes_rx] is overwritten by that last call or never read. *)
Fixpoint read_loop (format : text) (bufs : list text) : lookup :=
  match bufs with
  | [] => NotFound
  | buf :: bufs' =>
      match sscanf (c_str buf) format [TLlu; TLlu] with
      | None => Unspecified
      | Some (n, stores) =>
          if n =? 2 then
            match stores with
            | [VLlu rx; VLlu tx] => Found rx tx
            | _ => Unspecified
            end
          else read_loop format bufs'
      end
  end.

(** [void get_dev_rx_tx(const char *interface, llu *bytes_rx, llu *bytes_tx)]:
    [netfile] is the content of [NETFILE], [None] when it cannot be opened.
    The format with its terminating NUL must fit [char format[128]]. *)
Definition get_dev_rx_tx (interface : text) (netfile : option text)
  : M (Z * Z) :=
  let format := dev_format interface in
  if Nat.ltb 128 (List.length format + 1) then undef
  else
    match netfile with
    | None =>
        printf (txt "Error opening " ++ NETFILE ++ txt ", permissions?" ++ nl) ;;
        exit 1
    | Some content =>
        emit EvOpen ;;
        match read_loop format (fgets_buffers 256 255 content) with
        | Found rx tx => emit EvClose ;; ret (rx, tx)
        | NotFound =>
            printf (txt "Could not find interface " ++ interface ++ txt " in "
                    ++ NETFILE ++ nl) ;;
            exit 1
        | Unspecified => undef
        end
    end.

(** [void perform_action()] *)
Definition perform_action (options : options_t) : M unit :=
  emit (EvSystem (action options)).

(** [void evaluate_bytes(llu bytes_rx, llu bytes_tx)], reading the global
    [options]. *)
Definition evaluate_bytes (options : options_t) (bytes_rx bytes_tx : Z)
  : M unit :=
  if ((max_up options =? 0) && (max_down options =? 0)
      && (max_total options =? 0))%bool then
    match interface options with
    | None => undef
    | Some name =>
        printf (txt "Interface " ++ name ++ txt ": Down: " ++ print_llu bytes_rx
                ++ txt ", Up: " ++ print_llu bytes_tx ++ nl) ;;
        exit 0
    end
  else if (((0 <? max_up options) && (max_up options <? bytes_tx))
           || ((0 <? max_down options) && (max_down options <? bytes_rx))
           || ((0 <? max_total options)
               && (max_total options <? llu_add bytes_tx bytes_rx)))%bool
  then perform_action options
  else ret tt.

(** [int main(int argc, char **argv)]; [Ret status] is the return from
    [main], which ends the process with that status. *)
Definition main (argv : list text) (netfile : option text) : M Z :=
  options <- parse_cmd_line argv options_init ;;
  match interface options with
  | None => undef
  | Some name =>
      '(bytes_rx, bytes_tx) <- get_dev_rx_tx name netfile ;;
      evaluate_bytes options bytes_rx bytes_tx ;;
      ret 0
  end.

(** The shell commands of a trace. *)
Fixpoint actions (t : list event) : list (option text) :=
  match t with
  | [] => []
  | EvSystem c :: t' => c :: actions t'
  | _ :: t' => actions t'
  end.

(** Whether the statistics file is open after the events of [t], being
    [open] before. *)
Fixpoint handle_open (open : bool) (t : list event) : bool :=
  match t with
  | [] => open
  | EvOpen :: t' => handle_open true t'
  | EvClose :: t' => handle_open false t'
  | _ :: t' => handle_open open t'
  end.

End Throttler.
Import Libc Throttler.

(** * Vocabulary of the specification *)

(** ** Threshold evaluation *)

(** A limit is "set" when it is not zero. *)
Definition is_set (limit : Z) : Prop := limit <> 0.

(** The limits are values of [unsigned long long]. *)
Definition llu_options (o : options_t) : Prop :=
  is_llu (max_up o) /\ is_llu (max_down o) /\ is_llu (max_total o).

Definition no_threshold_mode (o : options_t) : Prop :=
  max_up o = 0 /\ max_down o = 0 /\ max_total o = 0.

Definition threshold_mode (o : options_t) : Prop :=
  is_set (max_up o) \/ is_set (max_down o) \/ is_set (max_total o).

(** The three conditions of threshold mode, OR-combined, as the
    specification words them: the third one compares the sum of the two
    counters, an integer that may exceed [2^64 - 1]. *)
Definition upload_exceeded (o : options_t) (bytes_tx : Z) : Prop :=
  is_set (max_up o) /\ bytes_tx > max_up o.
Definition download_exceeded (o : options_t) (bytes_rx : Z) : Prop :=
  is_set (max_down o) /\ bytes_rx > max_down o.
Definition total_exceeded_exact (o : options_t) (bytes_rx bytes_tx : Z) : Prop :=
  is_set (max_total o) /\ bytes_tx + bytes_rx > max_total o.
Definition breach_exact (o : options_t) (bytes_rx bytes_tx : Z) : Prop :=
  upload_exceeded o bytes_tx \/ download_exceeded o bytes_rx
  \/ total_exceeded_exact o bytes_rx bytes_tx.

(** The total condition and the OR of the three conditions with the sum of
    the two counters reduced modulo [2^64]. *)
Definition total_exceeded_mod64 (o : options_t) (bytes_rx bytes_tx : Z) : Prop :=
  is_set (max_total o) /\ (bytes_tx + bytes_rx) mod 2 ^ 64 > max_total o.
Definition breach_mod64 (o : options_t) (bytes_rx bytes_tx : Z) : Prop :=
  upload_exceeded o bytes_tx \/ download_exceeded o bytes_rx
  \/ total_exceeded_mod64 o bytes_rx bytes_tx.

(** The status line of no-threshold mode. *)
Definition status_line (name : text) (bytes_rx bytes_tx : Z) : text :=
  txt "Interface " ++ name ++ txt ": Down: " ++ print_llu bytes_rx
  ++ txt ", Up: " ++ print_llu bytes_tx ++ nl.

(** How [main] ends after the evaluator. *)
Definition after_evaluation (r : result unit) : result Z :=
  match r with
  | Ret _ => Ret 0
  | Exit status => Exit status
  | Undef => Undef
  end.

(** ** Unsigned integers in text *)

(** The input does not go on with a white-space character. *)
Definition stops_space (s : text) : Prop :=
  match s with
  | [] => True
  | c :: _ => isspace c = false
  end.

(** The input does not go on with a digit. *)
Definition stops_digits (s : text) : Prop :=
  match s with
  | [] => True
  | c :: _ => isdigit c = false
  end.

(** The value of a run of decimal digits. *)
Definition decimal_value (digits : text) : Z :=
  fold_left (fun acc c => 10 * acc + digit_value c) digits 0.

Definition is_sign (s : text) : Prop :=
  s = [] \/ s = ["+"%char] \/ s = ["-"%char].

(** The string begins with a decimal unsigned integer, the [<decimal-uint>]
    of the specification: a non-empty run of decimal digits. *)
Definition begins_with_uint (s : text) : Prop :=
  exists digits rest,
    s = digits ++ rest
    /\ digits <> [] /\ Forall (fun c => isdigit c = true) digits.

(** The string begins with an unsigned integer after optional white-space
    and an optional sign. *)
Definition begins_with_signed_uint (s : text) : Prop :=
  exists ws sign rest,
    s = ws ++ sign ++ rest
    /\ Forall (fun c => isspace c = true) ws
    /\ is_sign sign /\ begins_with_uint rest.

(** The binary unit factor of a suffix letter, as the specification lists
    them; [None] for any other character. *)
Definition binary_unit_factor (c : ascii) : option Z :=
  if (Ascii.eqb c "k" || Ascii.eqb c "K")%bool then Some (2 ^ 10)
  else if (Ascii.eqb c "m" || Ascii.eqb c "M")%bool then Some (2 ^ 20)
  else if (Ascii.eqb c "g" || Ascii.eqb c "G")%bool then Some (2 ^ 30)
  else if (Ascii.eqb c "t" || Ascii.eqb c "T")%bool then Some (2 ^ 40)
  else None.

(** ** The format and the lines of the reader *)

(** An interface name is safe for the format when it brings no conversion
    specification into it and the format fits [char format[128]]. *)
Definition format_safe (name : text) : Prop :=
  Forall (fun c => Ascii.eqb c "%" = false) name
  /\ (List.length name <= 31)%nat.

(** The directives of the name part and of the counters part of the format. *)
Definition name_directives (name : text) : list directive :=
  map (fun c => if isspace c then DSpace else DLit c) name.

Definition skip_seven : list directive :=
  List.concat (repeat [DSpace; DLlu false] 7).

Definition counters_directives : list directive :=
  DLit ":" :: DSpace :: DLlu true :: skip_seven
  ++ DSpace :: DLlu true :: skip_seven.

(** What one buffer yields: both counters when [sscanf] assigns two. *)
Definition match_line (name buf : text) : option (Z * Z) :=
  match sscanf (c_str buf) (dev_format name) [TLlu; TLlu] with
  | Some (n, [VLlu rx; VLlu tx]) => if n =? 2 then Some (rx, tx) else None
  | _ => None
  end.

(** Directives that assign [llu] values only. *)
Definition llu_only (ds : list directive) : Prop :=
  Forall (fun d => d <> DChr) ds.

(** A stored [llu] value in range. *)
Definition is_VLlu (v : scanned) : Prop :=
  match v with VLlu z => is_llu z | VChr _ => False end.

(** ** Diagnostics and traces *)

(** The two diagnostics of the reader. *)
Definition open_error : text :=
  txt "Error opening " ++ NETFILE ++ txt ", permissions?" ++ nl.
Definition not_found_error (name : text) : text :=
  txt "Could not find interface " ++ name ++ txt " in " ++ NETFILE ++ nl.

(** A trace of [printf] calls only. *)
Definition prints_only (t : list event) : Prop :=
  Forall (fun e => exists s, e = EvPrint s) t.

(** The diagnostic of [parse_cmd_line]. *)
Definition missing_interface : text :=
  txt "Missing interface specifier - call with --help to get information" ++ nl.

(** [getopt_long] sets [optarg] whenever it returns a limit option. *)
Definition getopt_wf (r : getopt_ret) : Prop :=
  opt r = char_code "u" \/ opt r = char_code "d" \/ opt r = char_code "t" ->
  optarg r <> None.

(** The call returned the help or the version option. *)
Definition asks_help_or_version (r : getopt_ret) : Prop :=
  opt r = char_code "h" \/ opt r = char_code "v".

(** ** Statistics tables *)

(** A plain interface name: safe for the format, without white-space and
    without NUL. *)
Definition plain_name (name : text) : Prop :=
  format_safe name
  /\ Forall (fun c => isspace c = false) name
  /\ Forall (fun c => Ascii.eqb c NUL = false) name.

(** The line begins, after optional white-space, with the interface name
    immediately followed by a colon. *)
Definition names_interface (name line : text) : Prop :=
  exists ws rest,
    Forall (fun c => isspace c = true) ws
    /\ line = ws ++ name ++ ":"%char :: rest.

(** A line of a text table: it fits one [fgets] buffer with its newline and
    holds neither a newline nor a NUL. *)
Definition text_line (line : text) : Prop :=
  (List.length line <= 254)%nat
  /\ Forall (fun c => Ascii.eqb c newline = false) line
  /\ Forall (fun c => Ascii.eqb c NUL = false) line.

(** The file made of the given lines, each ended by a newline. *)
Definition unlines (lines : list text) : text :=
  List.concat (map (fun l => l ++ nl) lines).

(** The counters of a line as a list of fields, each a separator of
    white-space and a run of digits, followed by [tail]. *)
Fixpoint fields_text (fields : list (text * text)) (tail : text) : text :=
  match fields with
  | [] => tail
  | (sep, digits) :: fields' => sep ++ digits ++ fields_text fields' tail
  end.

(** A field: a separator of white-space and a non-empty run of digits. *)
Definition field_ok (f : text * text) : Prop :=
  Forall (fun c => isspace c = true) (fst f)
  /\ snd f <> []
  /\ Forall (fun c => isdigit c = true) (snd f).

(** Fields are numeric, separated from each other by at least one
    white-space character, and the text after the last one does not go on
    with a digit. *)
Definition counters_ok (fields : list (text * text)) (tail : text) : Prop :=
  Forall field_ok fields
  /\ Forall (fun f => fst f <> []) (tl fields)
  /\ stops_digits tail.

(** The value [%llu] stores for a field. *)
Definition field_value (f : text * text) : Z :=
  Z.min (decimal_value (snd f)) ULLONG_MAX.

(** The directives [" %llu"] and [" %*llu"], one per flag. *)
Definition fields_directives (flags : list bool) : list directive :=
  List.concat (map (fun a => [DSpace; DLlu a]) flags).

(** The values of the fields whose flag is set. *)
Fixpoint assigned_values (flags : list bool) (fields : list (text * text))
  : list scanned :=
  match flags, fields with
  | a :: flags', f :: fields' =>
      (if a then [VLlu (field_value f)] else [])
      ++ assigned_values flags' fields'
  | _, _ => []
  end.

(** Each digit run ends where the following text begins. *)
Fixpoint fields_scan_ok (fields : list (text * text)) (tail : text) : Prop :=
  match fields with
  | [] => True
  | f :: fields' =>
      field_ok f /\ stops_digits (fields_text fields' tail)
      /\ fields_scan_ok fields' tail
  end.

(** The flags of the first nine conversions of the format. *)
Definition first_nine : list bool :=
  [true; false; false; false; false; false; false; false; true].

(** ** Whole runs *)

(** A stored value that, when it is an [llu], is in range. *)
Definition stored_in_range (v : scanned) : Prop :=
  match v with VLlu z => is_llu z | VChr _ => True end.

(** The outcomes of the reader, whatever its arguments. *)
Inductive reader_outcome (name : text) : M (Z * Z) -> Prop :=
| ReaderOverflow : reader_outcome name ([], Undef)
| ReaderNoFile : reader_outcome name ([EvPrint (open_error)], Exit 1)
| ReaderNotFound :
    reader_outcome name ([EvOpen; EvPrint (not_found_error name)], Exit 1)
| ReaderUnspecified : reader_outcome name ([EvOpen], Undef)
| ReaderFound (rx tx : Z) :
    is_llu rx -> is_llu tx ->
    reader_outcome name ([EvOpen; EvClose], Ret (rx, tx)).

(** The outcomes of the evaluator, whatever its arguments. *)
Inductive evaluator_outcome (o : options_t) : M unit -> Prop :=
| EvaluatorNull : evaluator_outcome o ([], Undef)
| EvaluatorStatus (line : text) : evaluator_outcome o ([EvPrint line], Exit 0)
| EvaluatorFire : evaluator_outcome o ([EvSystem (action o)], Ret tt)
| EvaluatorQuiet : evaluator_outcome o ([], Ret tt).

(** An entry for the interface: optional white-space, the name, a colon and
    nine numeric fields separated by white-space, whatever follows them. *)
Definition full_entry (name line : text) : Prop :=
  exists ws fields tail,
    line = ws ++ name ++ ":"%char :: fields_text fields tail
    /\ Forall (fun c => isspace c = true) ws
    /\ List.length fields = 9%nat
    /\ counters_ok fields tail.

(** A line that names the interface and ends, white-space apart, after
    fewer than nine numeric fields. *)
Definition short_entry (name line : text) : Prop :=
  exists ws fields tail,
    line = ws ++ name ++ ":"%char :: fields_text fields tail
    /\ Forall (fun c => isspace c = true) ws
    /\ (List.length fields < 9)%nat
    /\ counters_ok fields tail
    /\ Forall (fun c => isspace c = true) tail.

(** ** Command lines *)

(** An element of [argv] that [getopt_long] leaves as an operand: it does
    not begin with a dash, or it is the dash alone. *)
Definition operand (a : text) : Prop :=
  match a with
  | "-"%char :: _ :: _ => False
  | _ => True
  end.

(** The short and the long spelling of the three limit options. *)
Definition limit_spellings : list (text * text) :=
  [ (txt "-u", txt "--max-up"); (txt "-d", txt "--max-down");
    (txt "-t", txt "--max-total") ].

(** The command line that sets the three limits with the short options,
    followed by the interface and the command. *)
Definition limits_argv (prog : text) (up down total : Z) (name cmd : text)
  : list text :=
  [ prog; txt "-u"; print_llu up; txt "-d"; print_llu down;
    txt "-t"; print_llu total; name; cmd ].

(** ** Buffers of the reading loop *)



(** ** Sample inputs *)

Definition eth0_line : text :=
  txt "eth0: 100 0 0 0 0 0 0 0 200 0 0 0 0 0 0 0" ++ nl.

Definition only_up_1000 : options_t :=
  {| max_up := 1000; max_down := 0; max_total := 0;
     interface := Some (txt "eth0"); action := Some (txt "echo Throttle") |}.

Definition only_total (limit : Z) : options_t :=
  {| max_up := 0; max_down := 0; max_total := limit;
     interface := Some (txt "eth0"); action := Some (txt "echo Throttle") |}.

Definition header_line : text :=
  txt " face |bytes    packets errs drop fifo frame compressed multicast".

Definition eth01_line : text :=
  txt " eth01: 7 0 0 0 0 0 0 0 8 0 0 0 0 0 0 0".

Definition eth0_fields : list (text * text) :=
  [ (txt " ", txt "100"); (txt " ", txt "0"); (txt " ", txt "0");
    (txt " ", txt "0"); (txt " ", txt "0"); (txt " ", txt "0");
    (txt " ", txt "0"); (txt " ", txt "0"); (txt " ", txt "200") ].

(** * Running the model *)

Example get_bytes_formatted_1024 :
  get_bytes_formatted (txt "1024") 0 = Some (1, 1024).
Proof. reflexivity. Qed.

Example get_bytes_formatted_1K :
  get_bytes_formatted (txt "1K") 0 = Some (1, 1024).
Proof. reflexivity. Qed.

Example get_bytes_formatted_abc :
  get_bytes_formatted (txt "abc") 7 = Some (0, 7).
Proof. reflexivity. Qed.

Example getopt_long_help_example :
  getopt_long [txt "throttler"; txt "eth0"; txt "-u"; txt "10G";
               txt "--max-down=10G"; txt "-t15G"; txt "echo Throttle"]
              optstring long_options
  = ([ {| opt := char_code "u"; optarg := Some (txt "10G") |};
       {| opt := char_code "d"; optarg := Some (txt "10G") |};
       {| opt := char_code "t"; optarg := Some (txt "15G") |} ],
     [txt "eth0"; txt "echo Throttle"]).
Proof. reflexivity. Qed.

Example getopt_long_errors :
  getopt_long [txt "throttler"; txt "-x"; txt "--max"; txt "--"; txt "-u"]
              optstring long_options
  = ([opt_error; opt_error], [txt "-u"]).
Proof. reflexivity. Qed.

Example fgets_buffers_long_line :
  fgets_buffers 4 3 (txt "abcdefg" ++ nl ++ txt "h")
  = [txt "abc"; txt "def"; txt "g" ++ nl; txt "h"].
Proof. reflexivity. Qed.

Example main_status_line :
  main [txt "throttler"; txt "eth0"] (Some eth0_line)
  = ([EvOpen; EvClose; EvPrint (txt "Interface eth0: Down: 100, Up: 200" ++ nl)],
     Exit 0).
Proof. vm_compute. reflexivity. Qed.

Example main_fires_once :
  main [txt "throttler"; txt "-u"; txt "1K"; txt "eth0"; txt "reboot"]
       (Some (txt "eth0: 0 0 0 0 0 0 0 0 1025 0 0 0 0 0 0 0" ++ nl))
  = ([EvOpen; EvClose; EvSystem (Some (txt "reboot"))], Ret 0).
Proof. vm_compute. reflexivity. Qed.

Example total_100_fires :
  evaluate_bytes (only_total 100) 60 41
  = ([EvSystem (Some (txt "echo Throttle"))], Ret tt)
  /\ evaluate_bytes (only_total 100) 50 50 = ([], Ret tt).
Proof. split; reflexivity. Qed.

(** * Arithmetic on [llu] *)

Lemma wrap64_small (z : Z) : is_llu z -> wrap64 z = z.
Proof.
  unfold is_llu, ULLONG_MAX, wrap64. intros H.
  apply Z.mod_small. lia.
Qed.

Lemma wrap64_llu (z : Z) : is_llu (wrap64 z).
Proof.
  unfold is_llu, ULLONG_MAX, wrap64.
  pose proof (Z.mod_pos_bound z (2 ^ 64) ltac:(lia)). lia.
Qed.

Lemma llu_add_exact (a b : Z) :
  0 <= a -> 0 <= b -> a + b <= ULLONG_MAX -> llu_add a b = a + b.
Proof.
  intros Ha Hb Hab. unfold llu_add. apply wrap64_small.
  unfold is_llu. lia.
Qed.

Lemma llu_add_le (a b : Z) : 0 <= a -> 0 <= b -> llu_add a b <= a + b.
Proof.
  intros Ha Hb. unfold llu_add, wrap64.
  apply Z.mod_le; lia.
Qed.

(** * Threshold Evaluator *)

Section Evaluator.

Variable o : options_t.
Variables bytes_rx bytes_tx : Z.

Lemma evaluate_bytes_fire :
  llu_options o -> breach_mod64 o bytes_rx bytes_tx ->
  evaluate_bytes o bytes_rx bytes_tx = ([EvSystem (action o)], Ret tt).
Proof.
  unfold llu_options, is_llu, breach_mod64, upload_exceeded, download_exceeded,
    total_exceeded_mod64, is_set, evaluate_bytes, llu_add, wrap64.
  intros (Hu & Hd & Ht) Hb.
  destruct (((max_up o =? 0) && (max_down o =? 0) && (max_total o =? 0))%bool)
    eqn:Hmode.
  - apply andb_prop in Hmode as [Hmode H3]. apply andb_prop in Hmode as [H1 H2].
    lia.
  - match goal with |- (if ?c then _ else _) = _ => assert (c = true) as -> end;
      [| reflexivity].
    rewrite !orb_true_iff, !andb_true_iff, !Z.ltb_lt. lia.
Qed.

Lemma evaluate_bytes_quiescent :
  llu_options o -> threshold_mode o -> ~ breach_mod64 o bytes_rx bytes_tx ->
  evaluate_bytes o bytes_rx bytes_tx = ([], Ret tt).
Proof.
  unfold llu_options, is_llu, threshold_mode, breach_mod64, upload_exceeded,
    download_exceeded, total_exceeded_mod64, is_set, evaluate_bytes,
    llu_add, wrap64.
  intros (Hu & Hd & Ht) Hmode Hb.
  match goal with |- (if ?c then _ else _) = _ => assert (c = false) as -> end.
  { rewrite !andb_false_iff, !Z.eqb_neq. lia. }
  match goal with |- (if ?c then _ else _) = _ => assert (c = false) as -> end;
    [| reflexivity].
  apply not_true_is_false. intros Hc. apply Hb.
  rewrite !orb_true_iff, !andb_true_iff, !Z.ltb_lt in Hc. lia.
Qed.

Lemma evaluate_bytes_status :
  no_threshold_mode o -> forall name, interface o = Some name ->
  evaluate_bytes o bytes_rx bytes_tx
  = ([EvPrint (status_line name bytes_rx bytes_tx)], Exit 0).
Proof.
  unfold no_threshold_mode, evaluate_bytes.
  intros (-> & -> & ->) name ->. reflexivity.
Qed.

End Evaluator.

(** * Scanning unsigned integers *)

Ltac ascii_cases c :=
  destruct c as [[|] [|] [|] [|] [|] [|] [|] [|]];
  vm_compute; try congruence; try tauto.

Lemma digit_not_space (c : ascii) : isdigit c = true -> isspace c = false.
Proof. ascii_cases c. Qed.

Lemma digit_not_minus (c : ascii) : isdigit c = true -> Ascii.eqb c "-" = false.
Proof. ascii_cases c. Qed.

Lemma digit_not_plus (c : ascii) : isdigit c = true -> Ascii.eqb c "+" = false.
Proof. ascii_cases c. Qed.

Lemma digit_not_NUL (c : ascii) : isdigit c = true -> Ascii.eqb c NUL = false.
Proof. ascii_cases c. Qed.

Lemma space_not_NUL (c : ascii) : isspace c = true -> Ascii.eqb c NUL = false.
Proof. ascii_cases c. Qed.

Lemma space_not_digit (c : ascii) : isspace c = true -> isdigit c = false.
Proof. ascii_cases c. Qed.

Lemma digit_value_range (c : ascii) : isdigit c = true -> 0 <= digit_value c <= 9.
Proof.
  unfold isdigit, digit_value. intros H.
  apply andb_prop in H as [H1 H2].
  apply Nat.leb_le in H1, H2. lia.
Qed.

(** White-space skipping splits the input at its first other character. *)
Lemma skip_space_split (s : text) :
  exists ws, s = ws ++ skip_space s /\ Forall (fun c => isspace c = true) ws.
Proof.
  induction s as [|c s (ws & Hs & Hws)]; simpl.
  - exists []. split; [reflexivity | constructor].
  - destruct (isspace c) eqn:Hc.
    + exists (c :: ws). split; [simpl; congruence | constructor; assumption].
    + exists []. split; [reflexivity | constructor].
Qed.

Lemma skip_space_app (ws s : text) :
  Forall (fun c => isspace c = true) ws -> stops_space s ->
  skip_space (ws ++ s) = s.
Proof.
  intros Hws Hs. induction Hws as [|c ws Hc _ IH]; simpl.
  - destruct s as [|x s]; [reflexivity |]. simpl in Hs. simpl. now rewrite Hs.
  - now rewrite Hc.
Qed.

Lemma read_digits_app (digits rest : text) (acc : Z) :
  Forall (fun c => isdigit c = true) digits -> stops_digits rest ->
  read_digits acc (digits ++ rest)
  = (fold_left (fun a c => 10 * a + digit_value c) digits acc, rest).
Proof.
  intros Hd Hrest. revert acc.
  induction Hd as [|c digits Hc _ IH]; intros acc; simpl.
  - destruct rest as [|x rest]; [reflexivity |]. simpl in Hrest. simpl.
    now rewrite Hrest.
  - rewrite Hc. apply IH.
Qed.

Lemma read_digits_nonneg (s : text) (acc : Z) :
  0 <= acc -> 0 <= fst (read_digits acc s).
Proof.
  revert acc. induction s as [|c s IH]; intros acc Hacc; cbn [read_digits fst];
    [assumption |].
  destruct (isdigit c) eqn:Hc; [| assumption].
  apply IH. pose proof (digit_value_range c Hc). lia.
Qed.

Lemma strtoull_value_llu (neg : bool) (v : Z) :
  0 <= v -> is_llu (strtoull_value neg v).
Proof.
  intros Hv. unfold strtoull_value.
  destruct (ULLONG_MAX <? v) eqn:Hmax.
  - unfold is_llu, ULLONG_MAX. lia.
  - destruct neg; [apply wrap64_llu |].
    apply Z.ltb_ge in Hmax. unfold is_llu. lia.
Qed.

Lemma strtoull_value_min (v : Z) :
  strtoull_value false v = Z.min v ULLONG_MAX.
Proof.
  unfold strtoull_value. destruct (ULLONG_MAX <? v) eqn:H.
  - apply Z.ltb_lt in H. lia.
  - apply Z.ltb_ge in H. lia.
Qed.

Lemma conv_llu_llu (s : text) (v : Z) (rest : text) :
  conv_llu s = Converted v rest -> is_llu v.
Proof.
  unfold conv_llu. destruct (skip_space s) as [|c s2]; [discriminate |].
  destruct (if Ascii.eqb c "-" then (true, s2)
            else if Ascii.eqb c "+" then (false, s2) else (false, c :: s2))
    as [neg s3].
  destruct s3 as [|d s3]; [discriminate |].
  destruct (isdigit d); [| discriminate].
  pose proof (read_digits_nonneg (d :: s3) 0 ltac:(lia)) as Hnn.
  destruct (read_digits 0 (d :: s3)) as [w r]. intros [= <- <-].
  apply strtoull_value_llu. exact Hnn.
Qed.

(** A run of digits that stops is converted to its value, saturated. *)
Lemma conv_llu_digits (digits rest : text) :
  digits <> [] -> Forall (fun c => isdigit c = true) digits ->
  stops_digits rest ->
  conv_llu (digits ++ rest)
  = Converted (Z.min (decimal_value digits) ULLONG_MAX) rest.
Proof.
  intros Hne Hd Hrest. destruct digits as [|d digits]; [congruence |].
  pose proof (Forall_inv Hd) as Hd0. unfold conv_llu.
  change ((d :: digits) ++ rest) with (d :: (digits ++ rest)).
  cbn [skip_space]. rewrite (digit_not_space d Hd0).
  rewrite (digit_not_minus d Hd0), (digit_not_plus d Hd0), Hd0.
  change (d :: (digits ++ rest)) with ((d :: digits) ++ rest).
  rewrite (read_digits_app _ _ 0 Hd Hrest), strtoull_value_min.
  reflexivity.
Qed.

(** A string begins with an unsigned integer when its first character is a
    decimal digit. *)
Lemma begins_with_uint_digit (d : ascii) (s : text) :
  begins_with_uint (d :: s) <-> isdigit d = true.
Proof.
  split.
  - intros (digits & rest & Heq & Hne & Hd).
    destruct digits as [|x digits]; [now elim Hne |].
    injection Heq as -> _. exact (Forall_inv Hd).
  - intros Hd. exists [d], s.
    split; [reflexivity | split; [discriminate | repeat constructor; exact Hd]].
Qed.

Lemma conv_llu_begins (s : text) :
  begins_with_signed_uint s <-> exists v rest, conv_llu s = Converted v rest.
Proof.
  split.
  - intros (ws & sign & s0 & -> & Hws & Hsign
              & digits & rest0 & -> & Hne & Hdigits).
    destruct digits as [|d digits]; [now elim Hne |].
    pose proof (Forall_inv Hdigits) as Hd.
    change ((d :: digits) ++ rest0) with (d :: (digits ++ rest0)).
    generalize (digits ++ rest0). intros rest.
    unfold conv_llu. rewrite skip_space_app; [| assumption |].
    + destruct Hsign as [-> | [-> | ->]]; cbn [app].
      * rewrite (digit_not_minus d Hd), (digit_not_plus d Hd), Hd.
        destruct (read_digits 0 (d :: rest));
          do 2 eexists; reflexivity.
      * change (Ascii.eqb "+" "-") with false. change (Ascii.eqb "+" "+") with true.
        cbn iota. rewrite Hd. destruct (read_digits 0 (d :: rest));
          do 2 eexists; reflexivity.
      * change (Ascii.eqb "-" "-") with true.
        cbn iota. rewrite Hd. destruct (read_digits 0 (d :: rest));
          do 2 eexists; reflexivity.
    + destruct Hsign as [-> | [-> | ->]]; cbn;
        [apply digit_not_space; assumption | reflexivity | reflexivity].
  - intros (v & rest & H). unfold conv_llu in H.
    destruct (skip_space_split s) as (ws & Hs & Hws).
    destruct (skip_space s) as [|c s2]; [discriminate |].
    destruct (Ascii.eqb c "-") eqn:Hminus;
      [| destruct (Ascii.eqb c "+") eqn:Hplus].
    + apply Ascii.eqb_eq in Hminus. subst c.
      destruct s2 as [|d s3]; [discriminate |].
      destruct (isdigit d) eqn:Hd; [| discriminate].
      exists ws, ["-"%char], (d :: s3). unfold is_sign.
      split; [auto | split; [auto | split; [auto |]]].
      apply begins_with_uint_digit. exact Hd.
    + apply Ascii.eqb_eq in Hplus. subst c.
      destruct s2 as [|d s3]; [discriminate |].
      destruct (isdigit d) eqn:Hd; [| discriminate].
      exists ws, ["+"%char], (d :: s3). unfold is_sign.
      split; [auto | split; [auto | split; [auto |]]].
      apply begins_with_uint_digit. exact Hd.
    + destruct (isdigit c) eqn:Hd; [| discriminate].
      exists ws, [], (c :: s2). unfold is_sign.
      split; [auto | split; [auto | split; [auto |]]].
      apply begins_with_uint_digit. exact Hd.
Qed.

(** * Byte-Quantity Parser *)

(** [get_bytes_formatted] in terms of the [%llu] conversion: the character
    after the number, if any, is the unit. *)
Lemma get_bytes_formatted_conv (arg : text) (bytes : Z) :
  get_bytes_formatted arg bytes =
  match conv_llu arg with
  | Converted v [] => Some (1, v)
  | Converted v (unit :: _) => Some (1, llu_mul v (get_unit_factor unit))
  | _ => Some (0, bytes)
  end.
Proof.
  unfold get_bytes_formatted, sscanf.
  change (parse_format (txt "%llu%c")) with (Some [DLlu true; DChr]).
  cbn [signature args_serve ctype_eqb andb run_scan app].
  destruct (conv_llu arg) as [v [|unit rest] | |]; reflexivity.
Qed.

Lemma get_unit_factor_spec (c : ascii) :
  get_unit_factor c = match binary_unit_factor c with Some f => f | None => 1 end.
Proof.
  unfold get_unit_factor, binary_unit_factor.
  repeat match goal with |- context [if ?b then _ else _] => destruct b end;
    reflexivity.
Qed.

Lemma binary_unit_factor_pos (c : ascii) (f : Z) :
  binary_unit_factor c = Some f -> 0 < f.
Proof.
  unfold binary_unit_factor.
  repeat match goal with |- context [if ?b then _ else _] => destruct b end;
    intros [= <-]; reflexivity.
Qed.

Lemma suffix_not_digit (c : ascii) (f : Z) :
  binary_unit_factor c = Some f -> isdigit c = false.
Proof. ascii_cases c. Qed.

Lemma decimal_value_nonneg (digits : text) :
  Forall (fun c => isdigit c = true) digits -> 0 <= decimal_value digits.
Proof.
  intros Hd.
  pose proof (read_digits_nonneg (digits ++ []) 0 ltac:(lia)) as H.
  rewrite (read_digits_app digits [] 0 Hd I) in H. exact H.
Qed.

Section Parser.

Variable digits : text.
Hypothesis digits_nonempty : digits <> [].
Hypothesis digits_digits : Forall (fun c => isdigit c = true) digits.

(** The integer alone: the value, saturated at [ULLONG_MAX]. *)
Lemma get_bytes_formatted_plain (bytes : Z) :
  get_bytes_formatted digits bytes
  = Some (1, Z.min (decimal_value digits) ULLONG_MAX).
Proof.
  rewrite get_bytes_formatted_conv.
  rewrite <- (app_nil_r digits) at 1.
  rewrite (conv_llu_digits digits [] digits_nonempty digits_digits I).
  reflexivity.
Qed.

(** The integer and one more character that is not a digit: the value times
    the factor of that character, in [llu] arithmetic. *)
Lemma get_bytes_formatted_unit (c : ascii) (rest : text) (bytes : Z) :
  isdigit c = false ->
  get_bytes_formatted (digits ++ c :: rest) bytes
  = Some (1, llu_mul (Z.min (decimal_value digits) ULLONG_MAX)
                     (get_unit_factor c)).
Proof.
  intros Hc. rewrite get_bytes_formatted_conv.
  rewrite (conv_llu_digits digits (c :: rest) digits_nonempty digits_digits Hc).
  reflexivity.
Qed.

End Parser.

(** C2 (as amended). For a string made of a non-empty run of decimal digits
    whose value fits [unsigned long long]: alone, the parser succeeds and
    yields the value unchanged; followed by one suffix character among
    k, K, m, M, g, G, t, T, it succeeds and yields the value times the
    binary unit factor (2^10, 2^20, 2^30, 2^40) reduced modulo 2^64, which is
    the exact product whenever that product is at most 2^64 - 1. *)
Theorem get_bytes_formatted_suffix (digits : text) (bytes : Z) :
  digits <> [] ->
  Forall (fun c => isdigit c = true) digits ->
  decimal_value digits <= ULLONG_MAX ->
  get_bytes_formatted digits bytes = Some (1, decimal_value digits)
  /\ forall c f, binary_unit_factor c = Some f ->
       get_bytes_formatted (digits ++ [c]) bytes
       = Some (1, (decimal_value digits * f) mod 2 ^ 64)
       /\ (decimal_value digits * f <= ULLONG_MAX ->
           get_bytes_formatted (digits ++ [c]) bytes
           = Some (1, decimal_value digits * f)).
Proof.
  intros Hne Hd Hmax. split.
  - rewrite (get_bytes_formatted_plain digits Hne Hd).
    rewrite Z.min_l by assumption. reflexivity.
  - intros c f Hf.
    assert (get_bytes_formatted (digits ++ [c]) bytes
            = Some (1, (decimal_value digits * f) mod 2 ^ 64)) as Hwrap.
    { rewrite (get_bytes_formatted_unit digits Hne Hd c [] bytes
                 (suffix_not_digit c f Hf)).
      rewrite get_unit_factor_spec, Hf. unfold llu_mul, wrap64.
      rewrite Z.min_l by assumption. reflexivity. }
    split; [exact Hwrap |].
    intros Hprod. rewrite Hwrap. do 2 f_equal.
    apply Z.mod_small. pose proof (decimal_value_nonneg digits Hd).
    pose proof (binary_unit_factor_pos c f Hf).
    unfold ULLONG_MAX in Hprod. nia.
Qed.

Lemma get_bytes_formatted_suffix_witness :
  get_bytes_formatted (txt "10") 0 = Some (1, 10)
  /\ get_bytes_formatted (txt "10G") 0 = Some (1, 10 * 2 ^ 30).
Proof.
  assert (txt "10" <> []) as Hne by discriminate.
  assert (Forall (fun c => isdigit c = true) (txt "10")) as Hd
    by (repeat constructor).
  assert (decimal_value (txt "10") <= ULLONG_MAX) as Hmax
    by (vm_compute; discriminate).
  destruct (get_bytes_formatted_suffix (txt "10") 0 Hne Hd Hmax) as [H1 H2].
  split; [exact H1 |].
  destruct (H2 "G"%char (2 ^ 30) eq_refl) as [_ H3].
  apply H3. vm_compute. discriminate.
Defined.

(** C2, as stated, fails: 18014398509481984 is 2^54 and fits 64 bits, but
    with the suffix k the parser yields 0, not 2^54 * 2^10. *)
Lemma get_bytes_formatted_product_wraps :
  let digits := txt "18014398509481984" in
  digits <> []
  /\ Forall (fun c => isdigit c = true) digits
  /\ decimal_value digits = 2 ^ 54
  /\ binary_unit_factor "k" = Some (2 ^ 10)
  /\ get_bytes_formatted (digits ++ ["k"%char]) 0 = Some (1, 0)
  /\ get_bytes_formatted (digits ++ ["k"%char]) 0
     <> Some (1, decimal_value digits * 2 ^ 10).
Proof.
  cbv zeta. repeat split.
  - discriminate.
  - repeat constructor.
  - vm_compute. discriminate.
Qed.

(** C3 (as amended). On every string that begins with an unsigned integer
    the parser succeeds (returns 1). It reports invalid input (returns 0 and
    leaves [*bytes] alone) exactly when the string does not begin with an
    unsigned integer even after optional white-space and an optional sign
    are set aside; on every other string it succeeds. When the integer is
    followed by a character that is neither a digit nor one of k, K, m, M,
    g, G, t, T, that character is read as the unit and counts for a factor
    1: the result is the integer itself, whatever follows. *)
Theorem get_bytes_formatted_invalid_iff (arg : text) (bytes : Z) :
  (begins_with_uint arg ->
   exists v, get_bytes_formatted arg bytes = Some (1, v))
  /\ (begins_with_signed_uint arg
      <-> exists v, get_bytes_formatted arg bytes = Some (1, v))
  /\ (~ begins_with_signed_uint arg
      <-> get_bytes_formatted arg bytes = Some (0, bytes))
  /\ (forall digits c rest,
        arg = digits ++ c :: rest ->
        digits <> [] -> Forall (fun d => isdigit d = true) digits ->
        isdigit c = false -> binary_unit_factor c = None ->
        get_bytes_formatted arg bytes
        = Some (1, Z.min (decimal_value digits) ULLONG_MAX)
        /\ get_bytes_formatted arg bytes = get_bytes_formatted digits bytes).
Proof.
  assert (begins_with_signed_uint arg ->
          exists v, get_bytes_formatted arg bytes = Some (1, v)) as Hyes.
  { intros Hb. apply conv_llu_begins in Hb as (v & rest & Hv).
    rewrite get_bytes_formatted_conv, Hv.
    destruct rest; eexists; reflexivity. }
  assert (~ begins_with_signed_uint arg ->
          get_bytes_formatted arg bytes = Some (0, bytes)) as Hno.
  { intros Hb. rewrite get_bytes_formatted_conv.
    destruct (conv_llu arg) as [v rest | |] eqn:Hv; try reflexivity.
    exfalso. apply Hb. apply conv_llu_begins. eauto. }
  assert (begins_with_signed_uint arg \/ ~ begins_with_signed_uint arg) as Hdec.
  { destruct (conv_llu arg) as [v rest | |] eqn:Hv.
    - left. apply conv_llu_begins. eauto.
    - right. intros Hb. apply conv_llu_begins in Hb as (? & ? & Hb). congruence.
    - right. intros Hb. apply conv_llu_begins in Hb as (? & ? & Hb). congruence. }
  split; [| split; [| split]].
  - intros Hb. apply Hyes. exists [], [], arg.
    split; [reflexivity | split; [constructor | split; [left; reflexivity |]]].
    exact Hb.
  - split; [exact Hyes |]. intros (v & Hv).
    destruct Hdec as [Hb | Hb]; [exact Hb |].
    rewrite (Hno Hb) in Hv. discriminate.
  - split; [exact Hno |]. intros H0 Hb.
    destruct (Hyes Hb) as (v & Hv). rewrite Hv in H0. discriminate.
  - intros digits c rest -> Hne Hd Hc Hf.
    rewrite (get_bytes_formatted_unit digits Hne Hd c rest bytes Hc).
    rewrite (get_bytes_formatted_plain digits Hne Hd).
    rewrite get_unit_factor_spec, Hf. unfold llu_mul.
    rewrite Z.mul_1_r, wrap64_small; [split; reflexivity |].
    pose proof (decimal_value_nonneg digits Hd).
    unfold is_llu, ULLONG_MAX. lia.
Qed.

Lemma get_bytes_formatted_invalid_iff_witness :
  get_bytes_formatted (txt "12x") 7 = Some (1, 12)
  /\ get_bytes_formatted (txt "abc") 7 = Some (0, 7).
Proof.
  split.
  - destruct (get_bytes_formatted_invalid_iff (txt "12x") 7)
      as (_ & _ & _ & H).
    destruct (H (txt "12") "x"%char [] eq_refl) as [H1 _].
    + discriminate.
    + repeat constructor.
    + reflexivity.
    + reflexivity.
    + exact H1.
  - destruct (get_bytes_formatted_invalid_iff (txt "abc") 7)
      as (_ & _ & [H _] & _).
    apply H. intros Hb.
    apply conv_llu_begins in Hb as (v & rest & Hb). discriminate.
Defined.

(** C3, as stated, fails: ["-1"] and [" 5"] do not begin with an unsigned
    integer, and the parser does not report them as invalid. It returns 1,
    with [2^64 - 1] and with 5. *)
Lemma get_bytes_formatted_accepts_sign :
  ~ begins_with_uint (txt "-1")
  /\ get_bytes_formatted (txt "-1") 0 = Some (1, 2 ^ 64 - 1)
  /\ ~ begins_with_uint (txt " 5")
  /\ get_bytes_formatted (txt " 5") 0 = Some (1, 5).
Proof.
  split; [| split; [| split]].
  - intros Hb. apply begins_with_uint_digit in Hb. discriminate Hb.
  - vm_compute. reflexivity.
  - intros Hb. apply begins_with_uint_digit in Hb. discriminate Hb.
  - vm_compute. reflexivity.
Qed.

(** * Printing unsigned integers *)

Lemma uint_chars_acc (d : Decimal.uint) (acc : positive) :
  fold_left (fun a c => 10 * a + digit_value c)
            (txt (NilEmpty.string_of_uint d)) (Z.pos acc)
  = Z.pos (Pos.of_uint_acc d acc).
Proof.
  revert acc. unfold txt.
  induction d as [| d IH | d IH | d IH | d IH | d IH | d IH | d IH | d IH
                  | d IH | d IH]; intros acc;
    cbn [NilEmpty.string_of_uint list_ascii_of_string fold_left Pos.of_uint_acc];
    [reflexivity
    | rewrite <- IH; f_equal;
      match goal with
      | |- context [digit_value ?c] =>
          let v := eval vm_compute in (digit_value c) in
          change (digit_value c) with v
      end; lia ..].
Qed.

Lemma uint_chars_value (d : Decimal.uint) :
  decimal_value (txt (NilEmpty.string_of_uint d)) = Z.of_N (Pos.of_uint d).
Proof.
  unfold decimal_value, txt.
  induction d as [| d IH | d IH | d IH | d IH | d IH | d IH | d IH | d IH
                  | d IH | d IH];
    cbn [NilEmpty.string_of_uint list_ascii_of_string fold_left Pos.of_uint];
    [reflexivity | exact IH | apply uint_chars_acc ..].
Qed.

Lemma uint_chars_digits (d : Decimal.uint) :
  Forall (fun c => isdigit c = true) (txt (NilEmpty.string_of_uint d)).
Proof.
  unfold txt.
  induction d; cbn [NilEmpty.string_of_uint list_ascii_of_string];
    constructor; try reflexivity; assumption.
Qed.

Lemma nilzero_chars (d : Decimal.uint) :
  txt (NilZero.string_of_uint d) <> []
  /\ Forall (fun c => isdigit c = true) (txt (NilZero.string_of_uint d))
  /\ decimal_value (txt (NilZero.string_of_uint d)) = Z.of_N (Pos.of_uint d).
Proof.
  destruct d.
  1: split; [discriminate | split; [repeat constructor | reflexivity]].
  all: match goal with
       | |- context [NilZero.string_of_uint ?x] =>
           change (NilZero.string_of_uint x) with (NilEmpty.string_of_uint x)
       end;
    split; [discriminate | split;
            [apply uint_chars_digits | apply uint_chars_value]].
Qed.

(** [%llu] prints a non-empty run of digits whose value is the number. *)
Lemma print_llu_value (z : Z) :
  0 <= z ->
  print_llu z <> []
  /\ Forall (fun c => isdigit c = true) (print_llu z)
  /\ decimal_value (print_llu z) = z.
Proof.
  intros Hz. unfold print_llu.
  destruct (nilzero_chars (N.to_uint (Z.to_N z))) as (Hne & Hd & Hv).
  split; [exact Hne | split; [exact Hd |]].
  rewrite Hv. change (Pos.of_uint ?d) with (N.of_uint d).
  rewrite DecimalN.Unsigned.of_to. apply Z2N.id. exact Hz.
Qed.

(** * The main sequence *)

Lemma actions_app (t t' : list event) :
  actions (t ++ t') = actions t ++ actions t'.
Proof.
  induction t as [|e t IH]; [reflexivity |].
  destruct e; cbn [app actions]; rewrite IH; reflexivity.
Qed.

(** A run of [main] in which the command line is accepted and the reader
    returns a sample is the run of the three steps in sequence. *)
Lemma main_sequence (argv : list text) (netfile : option text)
      (o : options_t) (name : text) (bytes_rx bytes_tx : Z)
      (t1 t2 : list event) :
  parse_cmd_line argv options_init = (t1, Ret o) ->
  interface o = Some name ->
  get_dev_rx_tx name netfile = (t2, Ret (bytes_rx, bytes_tx)) ->
  main argv netfile
  = (t1 ++ t2 ++ fst (evaluate_bytes o bytes_rx bytes_tx),
     after_evaluation (snd (evaluate_bytes o bytes_rx bytes_tx))).
Proof.
  intros Hparse Hname Hread. unfold main, bind.
  rewrite Hparse, Hname, Hread.
  destruct (evaluate_bytes o bytes_rx bytes_tx) as [t3 [[] | status |]];
    cbn [fst snd after_evaluation ret]; rewrite ?app_nil_r; reflexivity.
Qed.

Lemma breach_decidable (o : options_t) (bytes_rx bytes_tx : Z) :
  breach_mod64 o bytes_rx bytes_tx \/ ~ breach_mod64 o bytes_rx bytes_tx.
Proof.
  unfold breach_mod64, upload_exceeded, download_exceeded, total_exceeded_mod64, is_set.
  lia.
Qed.

(** In threshold mode the evaluator runs the action exactly on a breach. *)
Lemma evaluate_bytes_fires_iff (o : options_t) (bytes_rx bytes_tx : Z) :
  llu_options o -> threshold_mode o ->
  actions (fst (evaluate_bytes o bytes_rx bytes_tx)) <> []
  <-> breach_mod64 o bytes_rx bytes_tx.
Proof.
  intros Hllu Hmode. split.
  - intros Hact.
    destruct (breach_decidable o bytes_rx bytes_tx) as [Hb | Hb]; [exact Hb |].
    rewrite (evaluate_bytes_quiescent o bytes_rx bytes_tx Hllu Hmode Hb) in Hact.
    now elim Hact.
  - intros Hb. rewrite (evaluate_bytes_fire o bytes_rx bytes_tx Hllu Hb).
    discriminate.
Qed.

(** Where the sum of the counters fits [unsigned long long], reducing it
    modulo [2^64] changes nothing. *)
Lemma breach_mod64_exact (o : options_t) (bytes_rx bytes_tx : Z) :
  0 <= bytes_rx -> 0 <= bytes_tx -> bytes_tx + bytes_rx <= ULLONG_MAX ->
  breach_mod64 o bytes_rx bytes_tx <-> breach_exact o bytes_rx bytes_tx.
Proof.
  intros Hrx Htx Hsum.
  unfold breach_mod64, breach_exact, total_exceeded_mod64, total_exceeded_exact.
  rewrite Z.mod_small by (unfold ULLONG_MAX in Hsum; lia). tauto.
Qed.

(** C1 (as amended). In threshold mode the evaluator calls [perform_action]
    exactly when one of three conditions holds: the upload limit is set and
    [bytes_tx] exceeds it, the download limit is set and [bytes_rx] exceeds
    it, or the total limit is set and the sum [bytes_tx + bytes_rx], reduced
    modulo [2^64], exceeds it. For counters whose sum is at most [2^64 - 1]
    the third condition compares the sum itself, as the specification words
    it. The comparisons are strict: a counter, or a sum, equal to its limit
    does not make the evaluator fire. When no condition holds the evaluator
    prints nothing and runs nothing, and [main] returns 0. *)
Theorem evaluate_bytes_threshold (o : options_t) (bytes_rx bytes_tx : Z) :
  llu_options o -> threshold_mode o ->
  (breach_mod64 o bytes_rx bytes_tx ->
     evaluate_bytes o bytes_rx bytes_tx = ([EvSystem (action o)], Ret tt))
  /\ (~ breach_mod64 o bytes_rx bytes_tx ->
     evaluate_bytes o bytes_rx bytes_tx = ([], Ret tt))
  /\ (actions (fst (evaluate_bytes o bytes_rx bytes_tx)) <> []
      <-> breach_mod64 o bytes_rx bytes_tx)
  /\ (0 <= bytes_rx -> 0 <= bytes_tx -> bytes_tx + bytes_rx <= ULLONG_MAX ->
      (breach_exact o bytes_rx bytes_tx ->
         evaluate_bytes o bytes_rx bytes_tx = ([EvSystem (action o)], Ret tt))
      /\ (~ breach_exact o bytes_rx bytes_tx ->
         evaluate_bytes o bytes_rx bytes_tx = ([], Ret tt))
      /\ (actions (fst (evaluate_bytes o bytes_rx bytes_tx)) <> []
          <-> breach_exact o bytes_rx bytes_tx))
  /\ (max_down o = 0 -> max_total o = 0 -> bytes_tx = max_up o ->
      evaluate_bytes o bytes_rx bytes_tx = ([], Ret tt))
  /\ (max_up o = 0 -> max_total o = 0 -> bytes_rx = max_down o ->
      evaluate_bytes o bytes_rx bytes_tx = ([], Ret tt))
  /\ (max_up o = 0 -> max_down o = 0 ->
      0 <= bytes_rx -> 0 <= bytes_tx -> bytes_tx + bytes_rx = max_total o ->
      evaluate_bytes o bytes_rx bytes_tx = ([], Ret tt))
  /\ (forall argv netfile name t1 t2,
        parse_cmd_line argv options_init = (t1, Ret o) ->
        interface o = Some name ->
        get_dev_rx_tx name netfile = (t2, Ret (bytes_rx, bytes_tx)) ->
        (breach_mod64 o bytes_rx bytes_tx ->
           main argv netfile = (t1 ++ t2 ++ [EvSystem (action o)], Ret 0))
        /\ (~ breach_mod64 o bytes_rx bytes_tx ->
           main argv netfile = (t1 ++ t2, Ret 0))).
Proof.
  intros Hllu Hmode.
  pose proof (evaluate_bytes_fire o bytes_rx bytes_tx Hllu) as Hfire.
  pose proof (evaluate_bytes_quiescent o bytes_rx bytes_tx Hllu Hmode) as Hquiet.
  pose proof (evaluate_bytes_fires_iff o bytes_rx bytes_tx Hllu Hmode) as Hiff.
  split; [exact Hfire |].
  split; [exact Hquiet |].
  split; [exact Hiff |].
  split; [| split; [| split; [| split]]].
  - intros Hrx Htx Hsum.
    pose proof (breach_mod64_exact o bytes_rx bytes_tx Hrx Htx Hsum) as Hex.
    split; [| split].
    + intros Hb. apply Hfire, Hex, Hb.
    + intros Hb. apply Hquiet. intros Hb'. apply Hb, Hex, Hb'.
    + rewrite Hiff. exact Hex.
  - intros Hd Ht Heq. apply Hquiet.
    unfold breach_mod64, upload_exceeded, download_exceeded,
      total_exceeded_mod64, is_set.
    generalize ((bytes_tx + bytes_rx) mod 2 ^ 64). intros w. lia.
  - intros Hu Ht Heq. apply Hquiet.
    unfold breach_mod64, upload_exceeded, download_exceeded,
      total_exceeded_mod64, is_set.
    generalize ((bytes_tx + bytes_rx) mod 2 ^ 64). intros w. lia.
  - intros Hu Hd Hrx Htx Heq. apply Hquiet.
    destruct Hllu as (_ & _ & [_ Hmax]).
    unfold breach_mod64, upload_exceeded, download_exceeded,
      total_exceeded_mod64, is_set.
    rewrite Z.mod_small by (unfold ULLONG_MAX in Hmax; lia). lia.
  - intros argv netfile name t1 t2 Hparse Hname Hread.
    rewrite (main_sequence argv netfile o name bytes_rx bytes_tx t1 t2
               Hparse Hname Hread).
    split; intros Hb.
    + rewrite (Hfire Hb). reflexivity.
    + rewrite (Hquiet Hb). cbn [fst snd after_evaluation].
      rewrite app_nil_r. reflexivity.
Qed.

Lemma only_total_1000_llu : llu_options (only_total 1000).
Proof. unfold llu_options, is_llu, ULLONG_MAX. cbn. lia. Defined.

Lemma only_total_1000_mode : threshold_mode (only_total 1000).
Proof. right. right. unfold is_set. cbn. lia. Defined.

Lemma evaluate_bytes_threshold_witness :
  evaluate_bytes (only_total 1000) 600 401
    = ([EvSystem (Some (txt "echo Throttle"))], Ret tt)
  /\ evaluate_bytes (only_total 1000) 600 400 = ([], Ret tt)
  /\ main [txt "throttler"; txt "-t"; txt "1000"; txt "eth0"; txt "echo Throttle"]
          (Some (txt "eth0: 600 0 0 0 0 0 0 0 400 0 0 0 0 0 0 0" ++ nl))
     = ([EvOpen; EvClose], Ret 0).
Proof.
  pose proof (evaluate_bytes_threshold (only_total 1000) 600 401
                only_total_1000_llu only_total_1000_mode)
    as (_ & _ & _ & Hexact & _).
  pose proof (evaluate_bytes_threshold (only_total 1000) 600 400
                only_total_1000_llu only_total_1000_mode)
    as (_ & _ & _ & _ & _ & _ & Hequal & Hmain).
  assert (~ breach_mod64 (only_total 1000) 600 400) as Hno.
  { unfold breach_mod64, upload_exceeded, download_exceeded,
      total_exceeded_mod64, is_set.
    cbn. lia. }
  split; [| split].
  - apply Hexact; [lia | lia | unfold ULLONG_MAX; lia |].
    right. right. unfold total_exceeded_exact, is_set. cbn. lia.
  - apply Hequal; [reflexivity | reflexivity | lia | lia | reflexivity].
  - apply (fun H1 H2 H3 =>
             proj2 (Hmain _ _ (txt "eth0") [] [EvOpen; EvClose] H1 H2 H3));
      [reflexivity | reflexivity | reflexivity | exact Hno].
Defined.

(** C1, as stated, fails: with only the total limit set to 5 and the
    counters at [2^64 - 1] and 1, the evaluator is in threshold mode and the
    sum of the counters exceeds the limit, but the sum the code compares is
    0 and the evaluator does not fire. *)
Lemma evaluate_bytes_threshold_wraps :
  let o := only_total 5 in
  let bytes_rx := 2 ^ 64 - 1 in
  let bytes_tx := 1 in
  llu_options o /\ is_llu bytes_rx /\ is_llu bytes_tx
  /\ threshold_mode o
  /\ breach_exact o bytes_rx bytes_tx
  /\ evaluate_bytes o bytes_rx bytes_tx = ([], Ret tt).
Proof.
  cbv zeta.
  unfold llu_options, is_llu, threshold_mode, breach_exact,
    total_exceeded_exact, is_set, ULLONG_MAX.
  split; [cbn; lia |].
  split; [lia |].
  split; [lia |].
  split; [right; right; cbn; lia |].
  split; [right; right; cbn; lia |].
  vm_compute. reflexivity.
Qed.

(** C5. When the three limits are zero the evaluator prints exactly
    [Interface <name>: Down: <bytes_rx>, Up: <bytes_tx>] and a newline, with
    the sampled values in decimal, and ends the process with status 0; no
    command is run, whatever the configured action. *)
Theorem evaluate_bytes_no_threshold (o : options_t) (name : text)
        (bytes_rx bytes_tx : Z) :
  no_threshold_mode o -> interface o = Some name ->
  evaluate_bytes o bytes_rx bytes_tx
    = ([EvPrint (txt "Interface " ++ name ++ txt ": Down: "
                 ++ print_llu bytes_rx ++ txt ", Up: " ++ print_llu bytes_tx
                 ++ nl)],
       Exit 0)
  /\ actions (fst (evaluate_bytes o bytes_rx bytes_tx)) = []
  /\ (forall argv netfile t1 t2,
        parse_cmd_line argv options_init = (t1, Ret o) ->
        get_dev_rx_tx name netfile = (t2, Ret (bytes_rx, bytes_tx)) ->
        main argv netfile
        = (t1 ++ t2 ++ [EvPrint (status_line name bytes_rx bytes_tx)], Exit 0)
        /\ actions (fst (main argv netfile)) = actions (t1 ++ t2))
  /\ (0 <= bytes_rx -> decimal_value (print_llu bytes_rx) = bytes_rx)
  /\ (0 <= bytes_tx -> decimal_value (print_llu bytes_tx) = bytes_tx).
Proof.
  intros Hmode Hname.
  pose proof (evaluate_bytes_status o bytes_rx bytes_tx Hmode name Hname) as H.
  split; [exact H | split; [| split; [| split]]].
  4: intros Hz; exact (proj2 (proj2 (print_llu_value bytes_tx Hz))).
  3: intros Hz; exact (proj2 (proj2 (print_llu_value bytes_rx Hz))).
  - rewrite H. reflexivity.
  - intros argv netfile t1 t2 Hparse Hread.
    rewrite (main_sequence argv netfile o name bytes_rx bytes_tx t1 t2
               Hparse Hname Hread).
    rewrite H. cbn [fst snd after_evaluation]. split; [reflexivity |].
    rewrite app_assoc, actions_app. cbn [actions]. apply app_nil_r.
Qed.

Lemma evaluate_bytes_no_threshold_witness :
  evaluate_bytes (only_total 0) 500 300
  = ([EvPrint (txt "Interface eth0: Down: 500, Up: 300" ++ nl)], Exit 0).
Proof.
  apply (evaluate_bytes_no_threshold (only_total 0) (txt "eth0") 500 300).
  - repeat split.
  - reflexivity.
Defined.

(** C6 (as amended). The sum of the total condition is computed in 64-bit
    unsigned arithmetic, that is modulo 2^64. Whenever the evaluator fires,
    the conditions hold with the exact sum as well; and for every sample
    whose exact sum is at most 2^64 - 1 the fire decision agrees with the
    exact comparison [bytes_tx + bytes_rx > max_total]. *)
Theorem evaluate_bytes_total_sum (o : options_t) (bytes_rx bytes_tx : Z) :
  llu_options o -> is_llu bytes_rx -> is_llu bytes_tx -> threshold_mode o ->
  (max_up o = 0 -> max_down o = 0 ->
     (actions (fst (evaluate_bytes o bytes_rx bytes_tx)) <> []
      <-> (bytes_tx + bytes_rx) mod 2 ^ 64 > max_total o)
     /\ (bytes_tx + bytes_rx <= ULLONG_MAX ->
         (actions (fst (evaluate_bytes o bytes_rx bytes_tx)) <> []
          <-> bytes_tx + bytes_rx > max_total o)))
  /\ (actions (fst (evaluate_bytes o bytes_rx bytes_tx)) <> []
      -> breach_exact o bytes_rx bytes_tx)
  /\ (bytes_tx + bytes_rx <= ULLONG_MAX ->
      (actions (fst (evaluate_bytes o bytes_rx bytes_tx)) <> []
       <-> breach_exact o bytes_rx bytes_tx)).
Proof.
  intros Hllu Hrx Htx Hmode.
  pose proof (evaluate_bytes_fires_iff o bytes_rx bytes_tx Hllu Hmode) as Hiff.
  unfold is_llu in Hrx, Htx.
  pose proof (llu_add_le bytes_tx bytes_rx ltac:(lia) ltac:(lia)) as Hle.
  pose proof (llu_add_exact bytes_tx bytes_rx ltac:(lia) ltac:(lia)) as Hexact.
  change (llu_add bytes_tx bytes_rx)
    with ((bytes_tx + bytes_rx) mod 2 ^ 64) in Hle, Hexact.
  split; [| split].
  - intros Hup Hdown.
    assert (actions (fst (evaluate_bytes o bytes_rx bytes_tx)) <> []
            <-> (bytes_tx + bytes_rx) mod 2 ^ 64 > max_total o) as Hmod.
    { rewrite Hiff.
      unfold breach_mod64, upload_exceeded, download_exceeded,
        total_exceeded_mod64, is_set.
      generalize ((bytes_tx + bytes_rx) mod 2 ^ 64). intros w.
      destruct Hmode as [Hm | [Hm | Hm]]; unfold is_set in Hm; lia. }
    split; [exact Hmod |].
    intros Hsum. rewrite Hmod.
    rewrite (Hexact Hsum). tauto.
  - rewrite Hiff.
    unfold breach_mod64, breach_exact, total_exceeded_mod64, total_exceeded_exact.
    intros [H | [H | [H1 H2]]]; [tauto | tauto |].
    right. right. split; [exact H1 | lia].
  - intros Hsum. rewrite Hiff.
    unfold breach_mod64, breach_exact, total_exceeded_mod64, total_exceeded_exact.
    rewrite (Hexact Hsum). tauto.
Qed.

Lemma evaluate_bytes_total_sum_witness :
  actions (fst (evaluate_bytes (only_total 100) 60 41)) <> []
  <-> breach_exact (only_total 100) 60 41.
Proof.
  apply (fun H1 H2 H3 H4 =>
           proj2 (proj2 (evaluate_bytes_total_sum (only_total 100) 60 41
                           H1 H2 H3 H4))).
  - unfold llu_options, is_llu, ULLONG_MAX. cbn. lia.
  - unfold is_llu, ULLONG_MAX. lia.
  - unfold is_llu, ULLONG_MAX. lia.
  - right. right. unfold is_set. cbn. lia.
  - unfold ULLONG_MAX. lia.
Defined.

(** C6, as stated, fails: with only the total limit set to 1000 and both
    counters at 2^63, the exact sum 2^64 exceeds the limit, but the sum the
    code compares wraps to 0 and the evaluator does not fire. *)
Lemma evaluate_bytes_total_wraps :
  let o := only_total 1000 in
  let bytes_rx := 2 ^ 63 in
  let bytes_tx := 2 ^ 63 in
  is_llu bytes_rx /\ is_llu bytes_tx
  /\ is_set (max_total o) /\ bytes_tx + bytes_rx > max_total o
  /\ llu_add bytes_tx bytes_rx = 0
  /\ evaluate_bytes o bytes_rx bytes_tx = ([], Ret tt).
Proof.
  cbv zeta. unfold is_llu, is_set, ULLONG_MAX.
  repeat split; try (cbn; lia); vm_compute; congruence.
Qed.

(** * CLI Front-End *)

Lemma get_bytes_formatted_cases (arg : text) (bytes : Z) :
  (begins_with_signed_uint arg
   /\ exists v, is_llu v /\ get_bytes_formatted arg bytes = Some (1, v))
  \/ (~ begins_with_signed_uint arg
      /\ get_bytes_formatted arg bytes = Some (0, bytes)).
Proof.
  rewrite get_bytes_formatted_conv.
  destruct (conv_llu arg) as [v rest | |] eqn:Hv.
  - left. split; [apply conv_llu_begins; eauto |].
    apply conv_llu_llu in Hv.
    destruct rest as [|unit rest]; eexists; (split; [| reflexivity]);
      [exact Hv | apply wrap64_llu].
  - right. split; [| reflexivity].
    intros Hb. apply conv_llu_begins in Hb as (? & ? & Hb). congruence.
  - right. split; [| reflexivity].
    intros Hb. apply conv_llu_begins in Hb as (? & ? & Hb). congruence.
Qed.

(** An invalid limit argument: the message is printed and the field keeps
    the value it had. *)
Lemma limit_option_invalid (r : getopt_ret) (arg : text) (field : Z) (msg : text) :
  optarg r = Some arg -> ~ begins_with_signed_uint arg ->
  limit_option r field msg = ([EvPrint msg], Ret field).
Proof.
  intros Harg Hb. unfold limit_option. rewrite Harg.
  destruct (get_bytes_formatted_cases arg field) as [[Hb' _] | [_ ->]];
    [contradiction | reflexivity].
Qed.

Lemma limit_option_valid (r : getopt_ret) (arg : text) (field : Z) (msg : text) :
  optarg r = Some arg -> begins_with_signed_uint arg ->
  exists v, is_llu v /\ get_bytes_formatted arg field = Some (1, v)
            /\ limit_option r field msg = ([], Ret v).
Proof.
  intros Harg Hb. unfold limit_option. rewrite Harg.
  destruct (get_bytes_formatted_cases arg field)
    as [(_ & v & Hv & ->) | [Hb' _]]; [| contradiction].
  exists v. split; [assumption | split; reflexivity].
Qed.

Lemma set_max_up_same (o : options_t) : set_max_up o (max_up o) = o.
Proof. destruct o; reflexivity. Qed.
Lemma set_max_down_same (o : options_t) : set_max_down o (max_down o) = o.
Proof. destruct o; reflexivity. Qed.
Lemma set_max_total_same (o : options_t) : set_max_total o (max_total o) = o.
Proof. destruct o; reflexivity. Qed.

Lemma bind_print {A} (s : text) (k : M A) :
  (printf s ;; k) = (EvPrint s :: fst k, snd k).
Proof. unfold bind, printf, emit. destruct k as [t r]. reflexivity. Qed.

(** C7 (as amended). An invalid limit argument is not fatal: the diagnostic
    is printed, the configuration is left as it was (so the limit stays unset
    when no earlier occurrence set it, and keeps the value of the earlier
    valid occurrence otherwise), and parsing goes on with the remaining
    options. *)
Theorem parse_options_invalid_limit (r : getopt_ret) (rets : list getopt_ret)
        (o : options_t) (arg : text) :
  optarg r = Some arg -> ~ begins_with_signed_uint arg ->
  (opt r = char_code "u" ->
     parse_options (r :: rets) o
     = (EvPrint (txt "Invalid argument for max upload" ++ nl)
          :: fst (parse_options rets o),
        snd (parse_options rets o)))
  /\ (opt r = char_code "d" ->
     parse_options (r :: rets) o
     = (EvPrint (txt "Invalid argument for max download" ++ nl)
          :: fst (parse_options rets o),
        snd (parse_options rets o)))
  /\ (opt r = char_code "t" ->
     exists msg,
       parse_options (r :: rets) o
       = (EvPrint msg :: fst (parse_options rets o),
          snd (parse_options rets o))).
Proof.
  intros Harg Hb. split; [| split]; intros Hopt; [| | eexists];
    cbn [parse_options]; rewrite Hopt.
  - change (char_code "u" =? char_code "u") with true. cbn iota.
    rewrite (limit_option_invalid r arg _ _ Harg Hb).
    unfold bind. cbn [app]. rewrite set_max_up_same.
    destruct (parse_options rets o); reflexivity.
  - change (char_code "d" =? char_code "u") with false.
    change (char_code "d" =? char_code "d") with true. cbn iota.
    rewrite (limit_option_invalid r arg _ _ Harg Hb).
    unfold bind. cbn [app]. rewrite set_max_down_same.
    destruct (parse_options rets o); reflexivity.
  - change (char_code "t" =? char_code "u") with false.
    change (char_code "t" =? char_code "d") with false.
    change (char_code "t" =? char_code "t") with true. cbn iota.
    rewrite (limit_option_invalid r arg _ _ Harg Hb).
    unfold bind. cbn [app]. rewrite set_max_total_same.
    destruct (parse_options rets o); reflexivity.
Qed.

Lemma abc_not_uint : ~ begins_with_signed_uint (txt "abc").
Proof.
  intros Hb. apply conv_llu_begins in Hb as (v & rest & Hb). discriminate.
Defined.

Lemma parse_options_invalid_limit_witness :
  parse_options [ {| opt := char_code "u"; optarg := Some (txt "abc") |} ]
                options_init
  = ([EvPrint (txt "Invalid argument for max upload" ++ nl)], Ret options_init).
Proof.
  destruct (parse_options_invalid_limit
              {| opt := char_code "u"; optarg := Some (txt "abc") |} []
              options_init (txt "abc") eq_refl abc_not_uint) as (H & _ & _).
  exact (H eq_refl).
Defined.

(** C7, as stated, fails: with [-u 10 -u abc] the second, invalid occurrence
    prints the diagnostic and the upload limit stays at 10; it is not
    unset. *)
Lemma parse_cmd_line_keeps_earlier_limit :
  let argv := [txt "throttler"; txt "-u"; txt "10"; txt "-u"; txt "abc";
               txt "eth0"] in
  exists o,
    parse_cmd_line argv options_init
    = ([EvPrint (txt "Invalid argument for max upload" ++ nl)], Ret o)
    /\ max_up o = 10 /\ is_set (max_up o).
Proof.
  cbv zeta. eexists. split; [vm_compute; reflexivity |].
  split; [reflexivity | discriminate].
Qed.

(** * The scan format of the reader *)

Lemma parse_format_cons (c : ascii) (f : text) :
  Ascii.eqb c "%" = false ->
  parse_format (c :: f)
  = option_map (cons (if isspace c then DSpace else DLit c)) (parse_format f).
Proof.
  destruct c as [[|] [|] [|] [|] [|] [|] [|] [|]];
    intros Hc; try reflexivity; discriminate Hc.
Qed.

Lemma parse_format_name (name rest : text) :
  Forall (fun c => Ascii.eqb c "%" = false) name ->
  parse_format (name ++ rest)
  = option_map (app (name_directives name)) (parse_format rest).
Proof.
  induction 1 as [|c name Hc _ IH]; cbn [app name_directives map].
  - destruct (parse_format rest); reflexivity.
  - rewrite (parse_format_cons c _ Hc), IH.
    destruct (parse_format rest); reflexivity.
Qed.

Lemma parse_dev_format (name : text) :
  Forall (fun c => Ascii.eqb c "%" = false) name ->
  parse_format (dev_format name)
  = Some (DSpace :: name_directives name ++ counters_directives).
Proof.
  intros Hname. unfold dev_format.
  change (txt " " ++ name ++ ?a ++ ?b) with (" "%char :: (name ++ (a ++ b))).
  rewrite parse_format_cons by reflexivity.
  rewrite (parse_format_name name _ Hname).
  reflexivity.
Qed.

Lemma signature_name (name : text) (ds : list directive) :
  signature (name_directives name ++ ds) = signature ds.
Proof.
  induction name as [|c name IH]; [reflexivity |].
  cbn [name_directives map app]. destruct (isspace c); exact IH.
Qed.

Lemma dev_format_length (name : text) :
  List.length (dev_format name) = (List.length name + 96)%nat.
Proof.
  unfold dev_format. rewrite !length_app. cbn. lia.
Qed.

(** On a safe name [sscanf] is defined and runs the parsed directives. *)
Lemma sscanf_dev_format (name input : text) :
  Forall (fun c => Ascii.eqb c "%" = false) name ->
  sscanf input (dev_format name) [TLlu; TLlu]
  = Some (run_scan (DSpace :: name_directives name ++ counters_directives)
                   input [] false).
Proof.
  intros Hname. unfold sscanf. rewrite (parse_dev_format name Hname).
  cbn [signature]. rewrite signature_name. reflexivity.
Qed.

Lemma run_scan_llu (ds : list directive) :
  llu_only ds ->
  forall s acc converted,
    Forall is_VLlu acc ->
    Forall is_VLlu (snd (run_scan ds s acc converted))
    /\ (fst (run_scan ds s acc converted) = EOF
        \/ fst (run_scan ds s acc converted)
           = Z.of_nat (List.length (snd (run_scan ds s acc converted)))).
Proof.
  induction 1 as [|d ds Hd _ IH]; intros s acc converted Hacc.
  - cbn. auto.
  - assert (forall b,
              Forall is_VLlu (snd (stop_count b converted acc, acc))
              /\ (fst (stop_count b converted acc, acc) = EOF
                  \/ fst (stop_count b converted acc, acc)
                     = Z.of_nat (List.length (snd (stop_count b converted acc, acc)))))
      as Hstop.
    { intros b. cbn [fst snd]. split; [assumption |].
      unfold stop_count. destruct (b && negb converted)%bool; auto. }
    destruct d as [| c | assign |]; cbn [run_scan].
    + apply IH. assumption.
    + destruct s as [|x s]; [apply Hstop |].
      destruct (Ascii.eqb x c); [apply IH; assumption | apply Hstop].
    + destruct (conv_llu s) as [v rest | |] eqn:Hv; try apply Hstop.
      apply IH. destruct assign; [| assumption].
      apply Forall_app. split; [assumption |].
      constructor; [| constructor]. exact (conv_llu_llu s v rest Hv).
    + congruence.
Qed.

Lemma llu_only_dev (name : text) :
  llu_only (DSpace :: name_directives name ++ counters_directives).
Proof.
  unfold llu_only. constructor; [discriminate |].
  apply Forall_app. split.
  - unfold name_directives. apply Forall_map, Forall_forall.
    intros c _. destruct (isspace c); discriminate.
  - repeat constructor; discriminate.
Qed.

(** On a safe name one step of the loop either takes both counters from the
    buffer or goes on; it is never unspecified. *)
Lemma read_loop_step (name buf : text) (bufs : list text) :
  Forall (fun c => Ascii.eqb c "%" = false) name ->
  read_loop (dev_format name) (buf :: bufs)
  = match match_line name buf with
    | Some (rx, tx) => Found rx tx
    | None => read_loop (dev_format name) bufs
    end.
Proof.
  intros Hname. cbn [read_loop]. unfold match_line.
  rewrite (sscanf_dev_format name (c_str buf) Hname).
  destruct (run_scan_llu _ (llu_only_dev name) (c_str buf) [] false
              (Forall_nil _)) as [Hst Hn].
  destruct (run_scan _ (c_str buf) [] false) as [n st].
  cbn [fst snd] in Hst, Hn.
  destruct (n =? 2) eqn:H2.
  - apply Z.eqb_eq in H2. subst n.
    destruct Hn as [Hn | Hn]; [discriminate |].
    destruct st as [|[a|] [|[b|] [|]]]; cbn in Hn; try lia;
      try reflexivity;
      exfalso; rewrite !Forall_cons_iff in Hst; cbn in Hst; tauto.
  - destruct st as [|[a|] [|[b|] [|]]]; reflexivity.
Qed.

Lemma read_loop_not_found (name : text) (bufs : list text) :
  Forall (fun c => Ascii.eqb c "%" = false) name ->
  Forall (fun b => match_line name b = None) bufs ->
  read_loop (dev_format name) bufs = NotFound.
Proof.
  intros Hname. induction 1 as [|b bufs Hb _ IH]; [reflexivity |].
  rewrite (read_loop_step name b bufs Hname), Hb. exact IH.
Qed.

Lemma read_loop_found (name : text) (pre post : list text) (buf : text)
      (rx tx : Z) :
  Forall (fun c => Ascii.eqb c "%" = false) name ->
  Forall (fun b => match_line name b = None) pre ->
  match_line name buf = Some (rx, tx) ->
  read_loop (dev_format name) (pre ++ buf :: post) = Found rx tx.
Proof.
  intros Hname Hpre Hbuf. induction Hpre as [|b pre Hb _ IH]; cbn [app].
  - rewrite (read_loop_step name buf post Hname), Hbuf. reflexivity.
  - rewrite (read_loop_step name b _ Hname), Hb. exact IH.
Qed.

(** The loop finds the first buffer that matches, if there is one. *)
Lemma read_loop_cases (name : text) (bufs : list text) :
  Forall (fun c => Ascii.eqb c "%" = false) name ->
  (read_loop (dev_format name) bufs = NotFound
   /\ Forall (fun b => match_line name b = None) bufs)
  \/ (exists pre buf post rx tx,
        bufs = pre ++ buf :: post
        /\ Forall (fun b => match_line name b = None) pre
        /\ match_line name buf = Some (rx, tx)
        /\ read_loop (dev_format name) bufs = Found rx tx).
Proof.
  intros Hname. induction bufs as [|b bufs IH].
  - left. split; [reflexivity | constructor].
  - rewrite (read_loop_step name b bufs Hname).
    destruct (match_line name b) as [[rx tx] |] eqn:Hb.
    + right. exists [], b, bufs, rx, tx. repeat split; [constructor | exact Hb].
    + destruct IH as [[Hnf Hall] | (pre & buf & post & rx & tx & -> & Hpre & Hbuf & Hf)].
      * left. split; [exact Hnf | constructor; assumption].
      * right. exists (b :: pre), buf, post, rx, tx.
        repeat split; [constructor; assumption | exact Hbuf | exact Hf].
Qed.

(** * Counter Source Reader: failures and the file handle *)

Lemma get_dev_rx_tx_safe (name : text) (netfile : option text) :
  (List.length name <= 31)%nat ->
  get_dev_rx_tx name netfile
  = match netfile with
    | None => ([EvPrint open_error], Exit 1)
    | Some content =>
        match read_loop (dev_format name) (fgets_buffers 256 255 content) with
        | Found rx tx => ([EvOpen; EvClose], Ret (rx, tx))
        | NotFound => ([EvOpen; EvPrint (not_found_error name)], Exit 1)
        | Unspecified => ([EvOpen], Undef)
        end
    end.
Proof.
  intros Hlen. unfold get_dev_rx_tx.
  rewrite dev_format_length.
  assert (Nat.ltb 128 (List.length name + 96 + 1) = false) as ->
    by (apply Nat.ltb_ge; lia).
  destruct netfile as [content |]; [| reflexivity].
  destruct (read_loop _ _); reflexivity.
Qed.

Lemma read_loop_not_found_iff (name : text) (bufs : list text) :
  Forall (fun c => Ascii.eqb c "%" = false) name ->
  read_loop (dev_format name) bufs = NotFound
  <-> Forall (fun b => match_line name b = None) bufs.
Proof.
  intros Hname. split; [| apply read_loop_not_found; exact Hname].
  destruct (read_loop_cases name bufs Hname)
    as [[_ Hall] | (pre & buf & post & rx & tx & _ & _ & _ & ->)];
    [intros _; exact Hall | discriminate].
Qed.

Lemma eth0_safe : format_safe (txt "eth0").
Proof. split; [repeat constructor | cbn; lia]. Defined.

Lemma handle_open_prints (t : list event) (open : bool) :
  prints_only t -> handle_open open t = open.
Proof.
  induction 1 as [|e t [s ->] _ IH]; [reflexivity | exact IH].
Qed.

Lemma handle_open_app (t t' : list event) (open : bool) :
  handle_open open (t ++ t') = handle_open (handle_open open t) t'.
Proof.
  revert open. induction t as [|e t IH]; intros open; [reflexivity |].
  destruct e; cbn [app handle_open]; apply IH.
Qed.

Lemma limit_option_prints (r : getopt_ret) (field : Z) (msg : text) :
  prints_only (fst (limit_option r field msg)).
Proof.
  unfold limit_option. destruct (optarg r) as [arg |]; [| constructor].
  destruct (get_bytes_formatted arg field) as [[ok v] |]; [| constructor].
  destruct (ok =? 0); cbn; repeat constructor. eexists. reflexivity.
Qed.

Lemma bind_prints {A B} (m : M A) (k : A -> M B) :
  prints_only (fst m) -> (forall a, prints_only (fst (k a))) ->
  prints_only (fst (bind m k)).
Proof.
  intros Hm Hk. destruct m as [t [a | status |]]; cbn in *; try assumption.
  specialize (Hk a). destruct (k a) as [t' r]. cbn in *.
  apply Forall_app. split; assumption.
Qed.

Lemma parse_options_prints (rets : list getopt_ret) (o : options_t) :
  prints_only (fst (parse_options rets o)).
Proof.
  revert o. induction rets as [|r rets IH]; intros o; [constructor |].
  cbn [parse_options].
  repeat match goal with
         | |- context [if ?b then _ else _] => destruct b
         end;
    repeat (apply bind_prints; [| intros ?]);
    try apply limit_option_prints; try apply IH;
    cbn; repeat constructor; eexists; reflexivity.
Qed.

Lemma parse_cmd_line_prints (argv : list text) (o : options_t) :
  prints_only (fst (parse_cmd_line argv o)).
Proof.
  unfold parse_cmd_line, parse_cmd_line_on.
  apply bind_prints; [apply parse_options_prints |].
  intros o1. unfold parse_operands.
  destruct (snd _) as [|i [|a ops]]; cbn; repeat constructor.
  eexists. reflexivity.
Qed.

(** C10 (as amended). The reader closes the statistics file before it
    returns: when a buffer matches, its events are the opening and the
    closing of the file and nothing else, so the handle is closed when the
    evaluation starts. When no buffer matches, the reader prints its
    diagnostic and ends the process with the handle still open; it never
    calls [fclose] on that path. *)
Theorem get_dev_rx_tx_handle (name : text) (content : text) :
  (List.length name <= 31)%nat ->
  (forall t rx tx,
     get_dev_rx_tx name (Some content) = (t, Ret (rx, tx)) ->
     t = [EvOpen; EvClose] /\ handle_open false t = false)
  /\ (forall t status,
        get_dev_rx_tx name (Some content) = (t, Exit status) ->
        t = [EvOpen; EvPrint (not_found_error name)]
        /\ ~ In EvClose t /\ handle_open false t = true)
  /\ (forall argv o t1 t2 rx tx,
        parse_cmd_line argv options_init = (t1, Ret o) ->
        interface o = Some name ->
        get_dev_rx_tx name (Some content) = (t2, Ret (rx, tx)) ->
        main argv (Some content)
        = ((t1 ++ t2) ++ fst (evaluate_bytes o rx tx),
           after_evaluation (snd (evaluate_bytes o rx tx)))
        /\ handle_open false (t1 ++ t2) = false).
Proof.
  intros Hsafe.
  assert (forall t rx tx,
            get_dev_rx_tx name (Some content) = (t, Ret (rx, tx)) ->
            t = [EvOpen; EvClose] /\ handle_open false t = false) as Hret.
  { intros t rx tx. rewrite (get_dev_rx_tx_safe name _ Hsafe).
    destruct (read_loop _ _); intros [= <- <- <-] || intros [= <-] || idtac;
      try discriminate.
    split; reflexivity. }
  split; [exact Hret | split].
  - intros t status. rewrite (get_dev_rx_tx_safe name _ Hsafe).
    destruct (read_loop _ _); try discriminate.
    intros [= <- <-]. split; [reflexivity | split; [| reflexivity]].
    cbn [In]. intros [H | [H | []]]; discriminate.
  - intros argv o t1 t2 rx tx Hparse Hname Hread. split.
    + rewrite <- app_assoc.
      exact (main_sequence argv (Some content) o name rx tx t1 t2
               Hparse Hname Hread).
    + rewrite handle_open_app.
      pose proof (parse_cmd_line_prints argv options_init) as Hp.
      rewrite Hparse in Hp. cbn [fst] in Hp.
      rewrite (handle_open_prints t1 false Hp).
      exact (proj2 (Hret t2 rx tx Hread)).
Qed.

Lemma get_dev_rx_tx_handle_witness :
  handle_open false (fst (get_dev_rx_tx (txt "eth0") (Some eth0_line))) = false.
Proof.
  destruct (get_dev_rx_tx_handle (txt "eth0") eth0_line (proj2 eth0_safe))
    as (H & _).
  destruct (H [EvOpen; EvClose] 100 200 eq_refl) as [_ Hclosed].
  exact Hclosed.
Defined.

(** C10, as stated, fails: when no line matches, the handle is still open
    while the diagnostic is printed and when the process exits; [fclose] is
    not called. *)
Lemma get_dev_rx_tx_leaves_handle_open :
  let t := [EvOpen;
            EvPrint (txt "Could not find interface wlan0 in /proc/net/dev" ++ nl)] in
  get_dev_rx_tx (txt "wlan0") (Some eth0_line) = (t, Exit 1)
  /\ ~ In EvClose t
  /\ handle_open false [EvOpen] = true
  /\ handle_open false t = true.
Proof.
  cbv zeta. repeat split.
  cbn [In]. intros [H | [H | []]]; discriminate.
Qed.

(** * The interface operand *)

Lemma opt_error_wf : getopt_wf opt_error.
Proof. intros [H | [H | H]]; discriminate H. Qed.

Lemma short_no_argument (c : ascii) :
  (if (Ascii.eqb c ":" || Ascii.eqb c ";")%bool then None
   else short_lookup optstring c) = Some no_argument ->
  getopt_wf {| opt := char_code c; optarg := None |}.
Proof.
  destruct c as [[|] [|] [|] [|] [|] [|] [|] [|]]; vm_compute;
    intros H; try discriminate H;
    intros [H' | [H' | H']]; discriminate H'.
Qed.

Lemma short_cluster_wf (cluster : text) (next : option text) :
  Forall getopt_wf (fst (short_cluster optstring cluster next)).
Proof.
  induction cluster as [|c cluster IH]; [constructor |].
  cbn [short_cluster].
  destruct (if (Ascii.eqb c ":" || Ascii.eqb c ";")%bool then None
            else short_lookup optstring c) as [[|] |] eqn:Hfound.
  - destruct (short_cluster optstring cluster next) as [rs used].
    constructor; [apply short_no_argument; exact Hfound | exact IH].
  - destruct cluster as [|x cluster]; [destruct next as [a |] |];
      cbn [fst]; constructor; try constructor;
      try apply opt_error_wf; intros _; discriminate.
  - destruct (short_cluster optstring cluster next) as [rs used].
    constructor; [apply opt_error_wf | exact IH].
Qed.

Lemma long_lookup_in (name : text) (o : long_option) :
  long_lookup long_options name = Some o -> In o long_options.
Proof.
  unfold long_lookup.
  destruct (filter (fun o => text_eqb name (lo_name o)) long_options)
    as [|o1 l1] eqn:Hexact.
  - destruct (filter (fun o => is_prefix name (lo_name o)) long_options)
      as [|o2 [|o3 l2]] eqn:Hprefix; try discriminate.
    intros [= <-].
    assert (In o2 (filter (fun o => is_prefix name (lo_name o)) long_options))
      as Hin by (rewrite Hprefix; left; reflexivity).
    apply filter_In in Hin. tauto.
  - intros [= <-].
    assert (In o1 (filter (fun o => text_eqb name (lo_name o)) long_options))
      as Hin by (rewrite Hexact; left; reflexivity).
    apply filter_In in Hin. tauto.
Qed.

Lemma long_arg_wf (body : text) (next : option text) :
  getopt_wf (fst (long_arg long_options body next)).
Proof.
  unfold long_arg. destruct (split_eq body) as [name value].
  destruct (long_lookup long_options name) as [o |] eqn:Ho;
    [| apply opt_error_wf].
  apply long_lookup_in in Ho.
  destruct (lo_has_arg o) eqn:Harg, value as [v |], next as [a |];
    cbn [fst]; try apply opt_error_wf; try (intros _; discriminate).
  all: cbn in Ho;
    destruct Ho as [<- | [<- | [<- | [<- | [<- | []]]]]];
    try discriminate Harg;
    intros [H | [H | H]]; discriminate H.
Qed.

Lemma getopt_args_wf (args : list text) (taken : bool) :
  Forall getopt_wf (fst (getopt_args optstring long_options args taken)).
Proof.
  revert taken. induction args as [|a args IH]; intros taken; [constructor |].
  cbn [getopt_args]. destruct taken; [apply IH |].
  assert (forall rs1 used,
            Forall getopt_wf rs1 ->
            Forall getopt_wf
              (fst (let '(rs, operands) :=
                      getopt_args optstring long_options args used in
                    (rs1 ++ rs, operands)))) as Hgo.
  { intros rs1 used H1. specialize (IH used).
    destruct (getopt_args optstring long_options args used) as [rs ops].
    apply Forall_app. split; assumption. }
  assert (Forall getopt_wf
            (fst (let '(rs, operands) :=
                    getopt_args optstring long_options args false in
                  (rs, a :: operands)))) as Hskip.
  { specialize (IH false).
    destruct (getopt_args optstring long_options args false). exact IH. }
  destruct a as [|c0 a]; [exact Hskip |].
  destruct (Ascii.ascii_dec c0 "-") as [-> | Hc0].
  - destruct a as [|c1 a]; [exact Hskip |].
    destruct (Ascii.ascii_dec c1 "-") as [-> | Hc1].
    + destruct a as [|c2 a]; [constructor |].
      pose proof (long_arg_wf (c2 :: a) (hd_error args)) as Hl.
      destruct (long_arg long_options (c2 :: a) (hd_error args)) as [r used].
      apply (Hgo [r] used). constructor; [exact Hl | constructor].
    + pose proof (short_cluster_wf (c1 :: a) (hd_error args)) as Hs.
      destruct (short_cluster optstring (c1 :: a) (hd_error args))
        as [rs1 used] eqn:Hsc.
      specialize (Hgo rs1 used Hs).
      destruct c1 as [[|] [|] [|] [|] [|] [|] [|] [|]];
        try exact Hgo; contradiction Hc1; reflexivity.
  - destruct c0 as [[|] [|] [|] [|] [|] [|] [|] [|]];
      try exact Hskip; contradiction Hc0; reflexivity.
Qed.

Lemma limit_option_returns (r : getopt_ret) (field : Z) (msg : text) :
  optarg r <> None ->
  exists t v, limit_option r field msg = (t, Ret v).
Proof.
  intros Harg. destruct (optarg r) as [arg |] eqn:Ha; [| congruence].
  destruct (get_bytes_formatted_cases arg field) as [[Hb _] | [Hb _]].
  - destruct (limit_option_valid r arg field msg Ha Hb) as (v & _ & _ & ->).
    eauto.
  - rewrite (limit_option_invalid r arg field msg Ha Hb). eauto.
Qed.

(** The option loop returns, or exits with status 0 on [-h] or [-v]. *)
Lemma parse_options_cases (rets : list getopt_ret) :
  Forall getopt_wf rets ->
  forall o,
    (exists t o', parse_options rets o = (t, Ret o'))
    \/ (exists t, parse_options rets o = (t, Exit 0)
                  /\ Exists asks_help_or_version rets).
Proof.
  induction 1 as [|r rets Hr _ IH]; intros o.
  - left. exists [], o. reflexivity.
  - assert (forall (field : Z) (msg : text) (set : Z -> options_t),
              optarg r <> None ->
              (exists t o',
                 (v <- limit_option r field msg ;; parse_options rets (set v))
                 = (t, Ret o'))
              \/ (exists t,
                    (v <- limit_option r field msg ;; parse_options rets (set v))
                    = (t, Exit 0)
                    /\ Exists asks_help_or_version (r :: rets))) as Hlimit.
    { intros field msg set Harg.
      destruct (limit_option_returns r field msg Harg) as (t & v & ->).
      unfold bind.
      destruct (IH (set v)) as [(t' & o' & ->) | (t' & -> & Hex)].
      - left. do 2 eexists. reflexivity.
      - right. eexists. split; [reflexivity | right; exact Hex]. }
    cbn [parse_options].
    destruct (opt r =? char_code "u") eqn:Hu.
    { apply Z.eqb_eq in Hu. apply Hlimit. apply Hr. auto. }
    destruct (opt r =? char_code "d") eqn:Hd.
    { apply Z.eqb_eq in Hd. apply Hlimit. apply Hr. auto. }
    destruct (opt r =? char_code "t") eqn:Ht.
    { apply Z.eqb_eq in Ht. apply Hlimit. apply Hr. auto. }
    destruct (opt r =? char_code "v") eqn:Hv.
    { apply Z.eqb_eq in Hv. right. eexists. split; [reflexivity |].
      left. right. exact Hv. }
    destruct (opt r =? char_code "h") eqn:Hh.
    { apply Z.eqb_eq in Hh. right. eexists. split; [reflexivity |].
      left. left. exact Hh. }
    rewrite bind_print.
    destruct (IH o) as [(t' & o' & ->) | (t' & -> & Hex)].
    + left. do 2 eexists. reflexivity.
    + right. eexists. split; [reflexivity | right; exact Hex].
Qed.

Lemma main_exits_in_parse (argv : list text) (netfile : option text)
      (t : list event) (status : Z) :
  parse_cmd_line argv options_init = (t, Exit status) ->
  main argv netfile = (t, Exit status).
Proof. intros H. unfold main, bind. rewrite H. reflexivity. Qed.

Lemma parse_cmd_line_on_cases (g : list getopt_ret * list text) :
  Forall getopt_wf (fst g) ->
  (forall t o,
     parse_cmd_line_on g options_init = (t, Ret o) ->
     exists name rest, snd g = name :: rest /\ interface o = Some name)
  /\ (snd g = [] ->
      exists t status,
        parse_cmd_line_on g options_init = (t, Exit status)
        /\ ((status = 1 /\ exists t', t = t' ++ [EvPrint missing_interface])
            \/ (status = 0 /\ Exists asks_help_or_version (fst g)))).
Proof.
  destruct g as [rets operands]. cbn [fst snd]. intros Hwf.
  unfold parse_cmd_line_on. cbn [fst snd]. split.
  - intros t o.
    destruct (parse_options_cases rets Hwf options_init)
      as [(t1 & o1 & ->) | (t1 & -> & _)]; [| discriminate].
    unfold bind, parse_operands.
    destruct operands as [|name [|a rest]]; try discriminate;
      intros [= <- <-]; do 2 eexists; split; reflexivity.
  - intros ->.
    destruct (parse_options_cases rets Hwf options_init)
      as [(t1 & o1 & ->) | (t1 & -> & Hex)].
    + exists (t1 ++ [EvPrint missing_interface]), 1.
      split; [reflexivity |]. left. split; [reflexivity |].
      eexists. reflexivity.
    + exists t1, 0. split; [reflexivity |]. right. auto.
Qed.

Lemma prints_only_no_open (t : list event) : prints_only t -> ~ In EvOpen t.
Proof.
  intros Hp Hin. unfold prints_only in Hp. rewrite Forall_forall in Hp.
  destruct (Hp EvOpen Hin) as [s Hs]. discriminate Hs.
Qed.

(** C9 (as amended). When [parse_cmd_line] returns, the interface field
    points to the first non-option argument of the command line, whatever
    that string is. On every command line without a non-option argument the
    program ends inside [parse_cmd_line], so the reader is never invoked
    and the statistics file never opened: with the diagnostic and exit
    code 1, or with exit code 0 when [-h] or [-v] was met first. *)
Theorem parse_cmd_line_interface (argv : list text) (netfile : option text) :
  (forall t o,
     parse_cmd_line argv options_init = (t, Ret o) ->
     exists name rest,
       snd (getopt_long argv optstring long_options) = name :: rest
       /\ interface o = Some name)
  /\ (snd (getopt_long argv optstring long_options) = [] ->
      exists t status,
        parse_cmd_line argv options_init = (t, Exit status)
        /\ main argv netfile = (t, Exit status)
        /\ prints_only t /\ ~ In EvOpen t
        /\ ((status = 1 /\ exists t', t = t' ++ [EvPrint missing_interface])
            \/ (status = 0
                /\ Exists asks_help_or_version
                          (fst (getopt_long argv optstring long_options))))).
Proof.
  destruct (parse_cmd_line_on_cases (getopt_long argv optstring long_options)
              (getopt_args_wf (tl argv) false)) as [Hret Hexit].
  split; [exact Hret |].
  intros Hnone. destruct (Hexit Hnone) as (t & status & Hparse & Hstatus).
  exists t, status.
  pose proof (parse_cmd_line_prints argv options_init) as Hp.
  unfold parse_cmd_line in Hp. rewrite Hparse in Hp. cbn [fst] in Hp.
  repeat split.
  - exact Hparse.
  - exact (main_exits_in_parse argv netfile t status Hparse).
  - exact Hp.
  - exact (prints_only_no_open t Hp).
  - exact Hstatus.
Qed.

Lemma parse_cmd_line_interface_witness :
  exists t status,
    main [txt "throttler"; txt "-u"; txt "1K"] (Some eth0_line) = (t, Exit status)
    /\ ~ In EvOpen t.
Proof.
  destruct (parse_cmd_line_interface [txt "throttler"; txt "-u"; txt "1K"]
              (Some eth0_line)) as [_ H].
  destruct (H eq_refl) as (t & status & _ & Hmain & _ & Hno & _).
  exists t, status. split; [exact Hmain | exact Hno].
Defined.

(** C9, as stated, fails: an empty string is accepted as the interface
    name. The reader is invoked with it and opens the statistics file; it
    even succeeds on a line that starts with a colon. *)
Lemma main_accepts_empty_interface :
  let argv := [txt "throttler"; txt ""] in
  (exists o, parse_cmd_line argv options_init = ([], Ret o)
             /\ interface o = Some [])
  /\ main argv (Some eth0_line)
     = ([EvOpen;
         EvPrint (txt "Could not find interface  in /proc/net/dev" ++ nl)],
        Exit 1)
  /\ main argv (Some (txt " : 1 2 3 4 5 6 7 8 9" ++ nl))
     = ([EvOpen; EvClose; EvPrint (txt "Interface : Down: 1, Up: 9" ++ nl)],
        Exit 0).
Proof.
  cbv zeta. split; [| split].
  - eexists. split; reflexivity.
  - vm_compute. reflexivity.
  - vm_compute. reflexivity.
Qed.

(** * Counter Source Reader: the matching line *)

Lemma c_str_id (s : text) :
  Forall (fun c => Ascii.eqb c NUL = false) s -> c_str s = s.
Proof.
  induction 1 as [|c s Hc _ IH]; [reflexivity |].
  cbn [c_str]. rewrite Hc, IH. reflexivity.
Qed.

(** Ordinary characters of the format match themselves or stop the scan. *)
Lemma run_scan_literals (lits : text) (ds : list directive) (s : text)
      (acc : list scanned) (converted : bool) :
  (exists s', s = lits ++ s'
              /\ run_scan (map DLit lits ++ ds) s acc converted
                 = run_scan ds s' acc converted)
  \/ (exists b, run_scan (map DLit lits ++ ds) s acc converted
                = (stop_count b converted acc, acc)).
Proof.
  revert s. induction lits as [|c lits IH]; intros s.
  - left. exists s. split; reflexivity.
  - cbn [map app run_scan]. destruct s as [|x s].
    + right. exists true. reflexivity.
    + destruct (Ascii.eqb x c) eqn:Hx.
      * apply Ascii.eqb_eq in Hx. subst x.
        destruct (IH s) as [(s' & -> & Hrun) | (b & Hrun)].
        -- left. exists s'. split; [reflexivity | exact Hrun].
        -- right. exists b. exact Hrun.
      * right. exists false. reflexivity.
Qed.

Lemma run_scan_literals_match (lits : text) (ds : list directive) (s : text)
      (acc : list scanned) (converted : bool) :
  run_scan (map DLit lits ++ ds) (lits ++ s) acc converted
  = run_scan ds s acc converted.
Proof.
  induction lits as [|c lits IH]; [reflexivity |].
  cbn [map app run_scan]. rewrite Ascii.eqb_refl. exact IH.
Qed.

Lemma name_directives_plain (name : text) :
  Forall (fun c => isspace c = false) name ->
  name_directives name = map DLit name.
Proof.
  induction 1 as [|c name Hc _ IH]; [reflexivity |].
  cbn [name_directives map]. rewrite Hc. f_equal. exact IH.
Qed.

(** Exact match: a buffer that yields the counters names the interface. *)
Lemma match_line_names (name buf : text) (rx tx : Z) :
  plain_name name ->
  match_line name buf = Some (rx, tx) ->
  names_interface name (c_str buf).
Proof.
  intros ([Hpct _] & Hsp & _) Hmatch. unfold match_line in Hmatch.
  rewrite (sscanf_dev_format name _ Hpct) in Hmatch.
  rewrite (name_directives_plain name Hsp) in Hmatch.
  cbn [run_scan] in Hmatch.
  destruct (skip_space_split (c_str buf)) as (ws & Hsplit & Hws).
  change (map DLit name ++ counters_directives)
    with (map DLit name ++ DLit ":" :: tl counters_directives) in Hmatch.
  change (map DLit name ++ DLit ":" :: tl counters_directives)
    with (map DLit name ++ map DLit [":"%char] ++ tl counters_directives)
    in Hmatch.
  rewrite app_assoc, <- map_app in Hmatch.
  destruct (run_scan_literals (name ++ [":"%char]) (tl counters_directives)
              (skip_space (c_str buf)) [] false)
    as [(s' & Hs' & _) | (b & Hstop)].
  - exists ws, s'. split; [exact Hws |].
    rewrite Hsplit at 1. rewrite Hs', <- app_assoc. reflexivity.
  - rewrite Hstop in Hmatch. discriminate Hmatch.
Qed.

Lemma counters_scan_ok (fields : list (text * text)) (tail : text) :
  counters_ok fields tail -> fields_scan_ok fields tail.
Proof.
  intros (Hall & Hsep & Htail).
  induction fields as [|f fields IH]; [exact I |].
  cbn [fields_scan_ok tl] in *.
  split; [exact (Forall_inv Hall) | split].
  - destruct fields as [|[sep digits] fields]; [exact Htail |].
    cbn [fields_text].
    pose proof (Forall_inv Hsep) as Hne. cbn [fst] in Hne.
    pose proof (Forall_inv (Forall_inv_tail Hall)) as (Hws & _).
    cbn [fst] in Hws.
    destruct sep as [|c sep]; [now elim Hne |].
    cbn [app stops_digits]. apply space_not_digit. exact (Forall_inv Hws).
  - apply IH; [exact (Forall_inv_tail Hall) |].
    destruct fields as [|f' fields]; [constructor |].
    exact (Forall_inv_tail Hsep).
Qed.

(** One [" %llu"] or [" %*llu"] over one field. *)
Lemma run_scan_field (a : bool) (ds : list directive) (f : text * text)
      (rest : text) (acc : list scanned) (converted : bool) :
  field_ok f -> stops_digits rest ->
  run_scan (DSpace :: DLlu a :: ds) (fst f ++ snd f ++ rest) acc converted
  = run_scan ds rest (acc ++ (if a then [VLlu (field_value f)] else [])) true.
Proof.
  destruct f as [sep digits]. cbn [fst snd]. intros (Hws & Hne & Hd) Hrest.
  assert (stops_space (digits ++ rest)) as Hstop.
  { destruct digits as [|d digits]; [now elim Hne |].
    cbn. apply digit_not_space. exact (Forall_inv Hd). }
  cbn [run_scan].
  rewrite (skip_space_app sep _ Hws Hstop).
  rewrite (conv_llu_digits digits rest Hne Hd Hrest).
  unfold field_value. cbn [snd].
  destruct a; [reflexivity | rewrite app_nil_r; reflexivity].
Qed.

Lemma run_scan_fields (flags : list bool) (ds : list directive) (tail : text) :
  forall (fields : list (text * text)) (acc : list scanned) (converted : bool),
    List.length flags = List.length fields ->
    fields_scan_ok fields tail ->
    run_scan (fields_directives flags ++ ds) (fields_text fields tail)
             acc converted
    = run_scan ds tail (acc ++ assigned_values flags fields)
               (match flags with [] => converted | _ :: _ => true end).
Proof.
  induction flags as [|a flags IH]; intros [|f fields] acc converted Hlen Hok;
    try discriminate Hlen.
  - cbn. rewrite app_nil_r. reflexivity.
  - destruct Hok as (Hf & Hstop & Hok). destruct f as [sep digits].
    cbn [fields_directives map List.concat app fields_text assigned_values].
    change (List.concat (map (fun a0 => [DSpace; DLlu a0]) flags))
      with (fields_directives flags).
    rewrite (run_scan_field a _ (sep, digits) _ acc converted Hf Hstop).
    injection Hlen as Hlen. rewrite (IH fields _ true Hlen Hok).
    rewrite <- app_assoc.
    destruct flags; reflexivity.
Qed.

(** Once a conversion has completed, directives that assign nothing leave
    the count and the stored values as they are. *)
Lemma run_scan_suppressed (flags : list bool) (s : text) (acc : list scanned) :
  Forall (fun a => a = false) flags ->
  run_scan (fields_directives flags) s acc true
  = (Z.of_nat (List.length acc), acc).
Proof.
  intros Hflags. revert s.
  induction Hflags as [|a flags -> _ IH]; intros s; [reflexivity |].
  cbn [fields_directives map List.concat app run_scan].
  change (List.concat (map (fun a0 => [DSpace; DLlu a0]) flags))
    with (fields_directives flags).
  destruct (conv_llu (skip_space s)); try reflexivity. apply IH.
Qed.

Lemma counters_directives_flags :
  counters_directives
  = DLit ":" :: fields_directives first_nine
    ++ fields_directives (repeat false 7).
Proof. reflexivity. Qed.

(** The buffer of a well-formed line for the interface yields its first and
    ninth fields. *)
Lemma match_line_entry (name ws tail : text) (fields : list (text * text)) :
  plain_name name ->
  Forall (fun c => isspace c = true) ws ->
  List.length fields = 9%nat ->
  counters_ok fields tail ->
  Forall (fun c => Ascii.eqb c NUL = false) tail ->
  match_line name (ws ++ name ++ ":"%char :: fields_text fields tail)
  = Some (field_value (nth 0 fields ([], [])),
          field_value (nth 8 fields ([], []))).
Proof.
  intros ([Hpct _] & Hsp & Hnul) Hws Hlen Hok Htail.
  pose proof (counters_scan_ok fields tail Hok) as Hscan.
  destruct Hok as (Hall & _ & _).
  assert (Forall (fun c => Ascii.eqb c NUL = false) (fields_text fields tail))
    as Hfnul.
  { clear Hlen Hscan. induction Hall as [|[sep digits] fields (Hs & _ & Hd) _ IH];
      [exact Htail |].
    cbn [fields_text fst snd] in *. repeat (apply Forall_app; split).
    - eapply Forall_impl; [| exact Hs]. apply space_not_NUL.
    - eapply Forall_impl; [| exact Hd]. apply digit_not_NUL.
    - exact IH. }
  unfold match_line. rewrite c_str_id.
  2:{ repeat (apply Forall_app; split).
      - eapply Forall_impl; [| exact Hws]. apply space_not_NUL.
      - exact Hnul.
      - constructor; [reflexivity | exact Hfnul]. }
  rewrite (sscanf_dev_format name _ Hpct).
  rewrite (name_directives_plain name Hsp).
  cbn [run_scan].
  rewrite skip_space_app; [| exact Hws |].
  2:{ destruct name as [|c name]; [reflexivity |].
      cbn. exact (Forall_inv Hsp). }
  rewrite run_scan_literals_match, counters_directives_flags.
  cbn [run_scan]. rewrite Ascii.eqb_refl.
  rewrite (run_scan_fields first_nine _ tail fields [] false (eq_sym Hlen) Hscan).
  cbn [first_nine app].
  rewrite run_scan_suppressed by (repeat constructor).
  do 10 (destruct fields as [|? fields]; try discriminate Hlen).
  reflexivity.
Qed.

(** A buffer whose line names a longer interface does not match. *)
Lemma match_line_longer_name (name ws more : text) (e : ascii) :
  plain_name name ->
  Forall (fun c => isspace c = true) ws ->
  isspace e = false -> Ascii.eqb e ":" = false ->
  match_line name (ws ++ name ++ e :: more) = None.
Proof.
  intros Hplain Hws He Hcolon.
  destruct (match_line name (ws ++ name ++ e :: more)) as [[rx tx] |] eqn:Hm;
    [| reflexivity].
  exfalso.
  destruct (match_line_names name _ rx tx Hplain Hm) as (ws' & rest & Hws' & Heq).
  destruct Hplain as (_ & Hsp & Hnul).
  assert (c_str (ws ++ name ++ e :: more) = ws ++ name ++ c_str (e :: more))
    as Hc.
  { clear Heq Hm. induction Hws as [|c ws Hc _ IH]; cbn [app c_str].
    - clear Hsp. induction Hnul as [|c name Hc _ IH]; [reflexivity |].
      cbn [app c_str]. rewrite Hc, IH. reflexivity.
    - rewrite (space_not_NUL c Hc), IH. reflexivity. }
  rewrite Hc in Heq.
  assert (skip_space (ws ++ name ++ c_str (e :: more))
          = name ++ c_str (e :: more)) as H1.
  { apply skip_space_app; [exact Hws |].
    destruct name as [|c name]; [| exact (Forall_inv Hsp)].
    cbn [app c_str]. destruct (Ascii.eqb e NUL); [exact I | exact He]. }
  assert (skip_space (ws' ++ name ++ ":"%char :: rest)
          = name ++ ":"%char :: rest) as H2.
  { apply skip_space_app; [exact Hws' |].
    destruct name as [|c name]; [reflexivity | exact (Forall_inv Hsp)]. }
  rewrite Heq, H2 in H1. apply app_inv_head in H1.
  cbn [c_str] in H1. destruct (Ascii.eqb e NUL); [discriminate H1 |].
  injection H1 as H1 _. subst e. discriminate Hcolon.
Qed.

(** * Reading the file buffer by buffer *)

(** [fgets_buffers] lists what the calls of [fgets] deliver one after the
    other. *)
Lemma fgets_buffers_cons (size room : nat) (c : ascii) (stream : text) :
  fgets_buffers size room (c :: stream)
  = if (Ascii.eqb c newline || Nat.leb room 1)%bool
    then [c] :: fgets_buffers size (size - 1) stream
    else push_char c (fgets_buffers size (room - 1) stream).
Proof. reflexivity. Qed.

Lemma fgets_chars_cons (room : nat) (c : ascii) (stream : text) :
  fgets_chars (S room) (c :: stream)
  = if Ascii.eqb c newline then ([c], stream)
    else (c :: fst (fgets_chars room stream), snd (fgets_chars room stream)).
Proof.
  cbn [fgets_chars]. destruct (fgets_chars room stream). reflexivity.
Qed.

Lemma fgets_buffers_chars (size room : nat) (c : ascii) (stream : text) :
  (1 <= room)%nat ->
  fgets_buffers size room (c :: stream)
  = fst (fgets_chars room (c :: stream))
    :: fgets_buffers size (size - 1) (snd (fgets_chars room (c :: stream))).
Proof.
  revert room c. induction stream as [|x stream IH]; intros room c Hroom;
    (destruct room as [|room]; [lia |]);
    rewrite fgets_buffers_cons, fgets_chars_cons;
    (destruct (Ascii.eqb c newline) eqn:Hc; [reflexivity |]); cbn [orb].
  - destruct room; reflexivity.
  - destruct room as [|room]; [reflexivity |].
    change (Nat.leb (S (S room)) 1) with false. cbn iota.
    replace (S (S room) - 1)%nat with (S room) by lia.
    rewrite (IH (S room) x ltac:(lia)). reflexivity.
Qed.

Lemma fgets_buffers_unfold (size : nat) (stream : text) :
  (2 <= size)%nat ->
  fgets_buffers size (size - 1) stream
  = match fgets size stream with
    | None => []
    | Some (buf, rest) => buf :: fgets_buffers size (size - 1) rest
    end.
Proof.
  intros Hsize. destruct stream as [|c stream]; [reflexivity |].
  rewrite fgets_buffers_chars by lia. unfold fgets.
  destruct (fgets_chars (size - 1) (c :: stream)); reflexivity.
Qed.

(** A line that fits the buffer is delivered whole, with its newline. *)
Lemma fgets_buffers_line (line rest : text) (room : nat) :
  Forall (fun c => Ascii.eqb c newline = false) line ->
  (List.length line < room)%nat ->
  fgets_buffers 256 room (line ++ newline :: rest)
  = (line ++ nl) :: fgets_buffers 256 255 rest.
Proof.
  intros Hline. revert room.
  induction Hline as [|c line Hc _ IH]; intros room Hroom.
  - cbn [app fgets_buffers]. rewrite Ascii.eqb_refl. reflexivity.
  - cbn [List.length] in Hroom. cbn [app fgets_buffers]. rewrite Hc.
    assert (Nat.leb room 1 = false) as -> by (apply Nat.leb_gt; lia).
    cbn [orb]. rewrite IH by lia. reflexivity.
Qed.

Lemma fgets_buffers_unlines (pre : list text) (rest : text) :
  Forall text_line pre ->
  fgets_buffers 256 255 (unlines pre ++ rest)
  = map (fun l => l ++ nl) pre ++ fgets_buffers 256 255 rest.
Proof.
  induction 1 as [|l pre (Hlen & Hnl & _) _ IH]; [reflexivity |].
  unfold unlines in *. cbn [map List.concat app].
  rewrite <- !app_assoc. cbn [nl app].
  rewrite (fgets_buffers_line l _ 255 Hnl ltac:(lia)), IH. reflexivity.
Qed.

(** A line that does not name the interface does not match. *)
Lemma match_line_other (name line : text) :
  plain_name name -> text_line line ->
  ~ names_interface name line ->
  match_line name (line ++ nl) = None.
Proof.
  intros Hplain (_ & Hnl & Hnul) Hother.
  destruct (match_line name (line ++ nl)) as [[rx tx] |] eqn:Hm; [| reflexivity].
  exfalso. apply Hother.
  destruct (match_line_names name _ rx tx Hplain Hm) as (ws & rest & Hws & Heq).
  rewrite c_str_id in Heq
    by (apply Forall_app; split; [exact Hnul | repeat constructor]).
  exists ws. clear Hm Hother Hnul.
  assert (forall (p : text) q,
            line ++ nl = p ++ ":"%char :: q ->
            exists q', line = p ++ ":"%char :: q') as Hcut.
  { clear. intros p. revert line. induction p as [|x p IH]; intros line q Heq.
    - destruct line as [|c line]; [discriminate Heq |].
      injection Heq as -> _. exists line. reflexivity.
    - destruct line as [|c line].
      + destruct p; discriminate Heq.
      + injection Heq as -> Heq. destruct (IH line q Heq) as [q' ->].
        exists q'. reflexivity. }
  rewrite app_assoc in Heq. destruct (Hcut _ _ Heq) as [q' ->].
  exists q'. split; [exact Hws |]. rewrite <- app_assoc. reflexivity.
Qed.

(** C4 (as amended). On a table of text lines, queried with a plain
    interface name (no white-space, no [%], at most 31 characters), when
    the first line that names the interface (optional white-space, the name,
    a colon) carries nine numeric fields separated by white-space, the reader
    returns the value of the first field as [bytes_rx] and the value of the
    ninth as [bytes_tx], closing the file. A buffer matches only if it names
    the interface exactly: a line whose name goes on after the queried name
    (as [eth01] after [eth0]) never matches. *)
Theorem get_dev_rx_tx_first_match
        (name : text) (pre post : list text) (ws tail : text)
        (fields : list (text * text)) :
  plain_name name ->
  Forall text_line pre ->
  Forall (fun l => ~ names_interface name l) pre ->
  text_line (ws ++ name ++ ":"%char :: fields_text fields tail) ->
  Forall (fun c => isspace c = true) ws ->
  List.length fields = 9%nat ->
  counters_ok fields tail ->
  get_dev_rx_tx name
    (Some (unlines (pre ++ (ws ++ name ++ ":"%char :: fields_text fields tail)
                        :: post)))
  = ([EvOpen; EvClose],
     Ret (field_value (nth 0 fields ([], [])),
          field_value (nth 8 fields ([], []))))
  /\ (forall buf, match_line name buf <> None ->
                  names_interface name (c_str buf))
  /\ (forall ws' e more,
        Forall (fun c => isspace c = true) ws' ->
        isspace e = false -> Ascii.eqb e ":" = false ->
        match_line name (ws' ++ name ++ e :: more) = None).
Proof.
  intros Hplain Hpre Hother Hline Hws Hlen Hok.
  split; [| split].
  - pose proof Hplain as (Hsafe & _).
    rewrite (get_dev_rx_tx_safe name _ (proj2 Hsafe)).
    change (pre ++ ?l :: post) with (pre ++ [l] ++ post).
    unfold unlines. rewrite !map_app, !concat_app. fold (unlines pre).
    rewrite (fgets_buffers_unlines pre _ Hpre).
    cbn [map List.concat app]. rewrite app_nil_r.
    destruct Hline as (Hlen' & Hnl & Hnul).
    rewrite <- app_assoc with (l := ws ++ _). cbn [nl app].
    rewrite (fgets_buffers_line _ _ 255 Hnl ltac:(lia)).
    erewrite read_loop_found; [reflexivity | apply Hsafe | |].
    + apply Forall_map.
      rewrite Forall_forall in Hpre, Hother. apply Forall_forall.
      intros l Hl. apply match_line_other; auto.
    + rewrite <- !app_assoc. cbn [app].
      change (":"%char :: fields_text fields tail ++ nl)
        with (":"%char :: (fields_text fields tail ++ nl)).
      assert (fields_text fields tail ++ nl = fields_text fields (tail ++ nl))
        as ->.
      { clear. induction fields as [|[sep digits] fields IH]; [reflexivity |].
        cbn [fields_text]. rewrite <- !app_assoc, IH. reflexivity. }
      apply match_line_entry; try assumption.
      * destruct Hok as (Hall & Hsep & Htail). repeat split; try assumption.
        destruct tail; [reflexivity | exact Htail].
      * apply Forall_app. split; [| repeat constructor].
        apply Forall_app in Hnul as [_ Hnul].
        apply Forall_app in Hnul as [_ Hnul].
        apply Forall_inv_tail in Hnul.
        clear - Hnul. induction fields as [|[sep digits] fields IH];
          [exact Hnul |].
        cbn [fields_text] in Hnul.
        apply Forall_app in Hnul as [_ Hnul].
        apply Forall_app in Hnul as [_ Hnul]. exact (IH Hnul).
  - intros buf Hm.
    destruct (match_line name buf) as [[rx tx] |] eqn:Hb; [| congruence].
    exact (match_line_names name buf rx tx Hplain Hb).
  - intros ws' e more Hws' He Hcolon.
    exact (match_line_longer_name name ws' more e Hplain Hws' He Hcolon).
Qed.

Lemma is_prefix_app (p s : text) : is_prefix p (p ++ s) = true.
Proof.
  induction p as [|c p IH]; [reflexivity |].
  cbn [app is_prefix]. rewrite Ascii.eqb_refl. exact IH.
Qed.

(** Naming the interface can be checked on the line. *)
Lemma names_interface_prefix (name line : text) :
  Forall (fun c => isspace c = false) name ->
  names_interface name line ->
  is_prefix (name ++ [":"%char]) (skip_space line) = true.
Proof.
  intros Hsp (ws & rest & Hws & ->).
  rewrite skip_space_app; [| exact Hws |].
  - change (":"%char :: rest) with ([":"%char] ++ rest).
    rewrite app_assoc. apply is_prefix_app.
  - destruct name as [|c name]; [reflexivity | exact (Forall_inv Hsp)].
Qed.

Lemma eth0_plain : plain_name (txt "eth0").
Proof.
  split; [exact eth0_safe | split; repeat constructor].
Defined.

Lemma get_dev_rx_tx_first_match_witness :
  get_dev_rx_tx (txt "eth0")
    (Some (unlines [header_line; eth01_line;
                    txt "  eth0: 100 0 0 0 0 0 0 0 200 0 0 0 0 0 0 0"]))
  = ([EvOpen; EvClose], Ret (100, 200)).
Proof.
  assert (forall l, is_prefix (txt "eth0:") (skip_space l) = false ->
                    ~ names_interface (txt "eth0") l) as Hnot.
  { intros l Hl Hn.
    apply (names_interface_prefix (txt "eth0") l) in Hn;
      [| repeat constructor].
    change (txt "eth0" ++ [":"%char]) with (txt "eth0:") in Hn.
    rewrite Hl in Hn. discriminate Hn. }
  refine (proj1 (get_dev_rx_tx_first_match (txt "eth0")
                   [header_line; eth01_line] [] (txt "  ")
                   (txt " 0 0 0 0 0 0 0") eth0_fields
                   eth0_plain _ _ _ _ eq_refl _)).
  - repeat constructor; cbn; lia.
  - repeat constructor; apply Hnot; reflexivity.
  - repeat constructor; cbn; lia.
  - repeat constructor.
  - unfold counters_ok, field_ok, eth0_fields. cbn [tl fst snd].
    repeat split; repeat constructor; discriminate.
Defined.

(** C4, as stated, fails. The first line of the table whose leading token
    is [eth0] followed by a colon carries two numbers only: the reader
    passes it over and returns the counters of a later line. Queried with
    the name ["e th0"], which no line carries, the reader returns the
    counters of the line for [eth0]. *)
Lemma get_dev_rx_tx_not_first_line :
  names_interface (txt "eth0") (txt " eth0: 100 0")
  /\ get_dev_rx_tx (txt "eth0")
       (Some (unlines [txt " eth0: 100 0";
                       txt " eth0: 5 0 0 0 0 0 0 0 6 0 0 0 0 0 0 0"]))
     = ([EvOpen; EvClose], Ret (5, 6))
  /\ ~ names_interface (txt "e th0") eth0_line
  /\ get_dev_rx_tx (txt "e th0") (Some eth0_line)
     = ([EvOpen; EvClose], Ret (100, 200)).
Proof.
  split; [| split; [| split]].
  - exists (txt " "), (txt " 100 0"). split; [repeat constructor | reflexivity].
  - vm_compute. reflexivity.
  - intros (ws & rest & Hws & Heq).
    destruct ws as [|w ws].
    + discriminate Heq.
    + injection Heq as <- _. pose proof (Forall_inv Hws) as Hw.
      discriminate Hw.
  - vm_compute. reflexivity.
Qed.


(** * Further properties of the Byte-Quantity Parser *)

Lemma skip_space_more (ws s : text) :
  Forall (fun c => isspace c = true) ws ->
  skip_space (ws ++ s) = skip_space s.
Proof.
  induction 1 as [|c ws Hc _ IH]; [reflexivity |].
  cbn [app skip_space]. rewrite Hc. exact IH.
Qed.

Lemma conv_llu_space (ws s : text) :
  Forall (fun c => isspace c = true) ws ->
  conv_llu (ws ++ s) = conv_llu s.
Proof.
  intros Hws. unfold conv_llu. rewrite (skip_space_more ws s Hws). reflexivity.
Qed.

(** A sign before a run of digits that stops. *)
Lemma conv_llu_signed (neg : bool) (digits rest : text) :
  digits <> [] -> Forall (fun c => isdigit c = true) digits ->
  stops_digits rest ->
  conv_llu ((if neg then "-"%char else "+"%char) :: digits ++ rest)
  = Converted (strtoull_value neg (decimal_value digits)) rest.
Proof.
  intros Hne Hd Hrest. destruct digits as [|d digits]; [now elim Hne |].
  pose proof (Forall_inv Hd) as Hd0.
  pose proof (read_digits_app (d :: digits) rest 0 Hd Hrest) as Hread.
  fold (decimal_value (d :: digits)) in Hread.
  unfold conv_llu. destruct neg;
    cbn [skip_space isspace nat_of_ascii];
    [change (isspace "-") with false | change (isspace "+") with false];
    cbn iota;
    [change (Ascii.eqb "-" "-") with true
    | change (Ascii.eqb "+" "-") with false;
      change (Ascii.eqb "+" "+") with true];
    cbn iota; cbn [app]; rewrite Hd0;
    change (d :: digits ++ rest) with ((d :: digits) ++ rest);
    rewrite Hread; reflexivity.
Qed.

(** X1. What [%llu] prints, the parser reads back: on the decimal text of
    an [unsigned long long] value the parser succeeds with that value, so
    the counters of the status line can be given back as limits. *)
Theorem get_bytes_formatted_print_llu (z bytes : Z) :
  is_llu z -> get_bytes_formatted (print_llu z) bytes = Some (1, z).
Proof.
  intros [Hz Hmax].
  destruct (print_llu_value z Hz) as (Hne & Hd & Hv).
  rewrite (get_bytes_formatted_plain (print_llu z) Hne Hd), Hv.
  rewrite Z.min_l by exact Hmax. reflexivity.
Qed.

Lemma get_bytes_formatted_print_llu_witness :
  get_bytes_formatted (print_llu 1025) 0 = Some (1, 1025).
Proof.
  apply get_bytes_formatted_print_llu.
  unfold is_llu, ULLONG_MAX. lia.
Defined.

(** X2. The parser looks at the number and at one character after it, and
    at nothing else: white-space before the number is skipped, and whatever
    follows the character after the number changes neither the returned
    value nor the byte count. *)
Theorem get_bytes_formatted_ignores (ws digits rest : text) (c : ascii)
        (bytes : Z) :
  Forall (fun x => isspace x = true) ws ->
  digits <> [] -> Forall (fun d => isdigit d = true) digits ->
  isdigit c = false ->
  get_bytes_formatted (ws ++ digits) bytes = get_bytes_formatted digits bytes
  /\ get_bytes_formatted (ws ++ digits ++ c :: rest) bytes
     = get_bytes_formatted (digits ++ [c]) bytes.
Proof.
  intros Hws Hne Hd Hc.
  rewrite !get_bytes_formatted_conv, !(conv_llu_space ws _ Hws).
  split; [reflexivity |].
  rewrite (conv_llu_digits digits (c :: rest) Hne Hd Hc).
  rewrite (conv_llu_digits digits [c] Hne Hd Hc). reflexivity.
Qed.

Lemma get_bytes_formatted_ignores_witness :
  get_bytes_formatted (txt "  10Gib and more") 0
  = get_bytes_formatted (txt "10G") 0.
Proof.
  refine (proj2 (get_bytes_formatted_ignores (txt "  ") (txt "10")
                   (txt "ib and more") "G" 0 _ _ _ _)).
  - repeat constructor.
  - discriminate.
  - repeat constructor.
  - reflexivity.
Defined.

(** X3. A sign is accepted before the number. A plus sign changes nothing;
    a minus sign makes the parser succeed with the negated value in
    [unsigned long long], that is [2^64 - n] for a number [n] from 1 to
    [2^64 - 1]: a negative limit is read as a very large one. *)
Theorem get_bytes_formatted_sign (digits : text) (bytes : Z) :
  digits <> [] -> Forall (fun d => isdigit d = true) digits ->
  1 <= decimal_value digits <= ULLONG_MAX ->
  get_bytes_formatted ("+"%char :: digits) bytes
    = Some (1, decimal_value digits)
  /\ get_bytes_formatted ("-"%char :: digits) bytes
     = Some (1, 2 ^ 64 - decimal_value digits).
Proof.
  intros Hne Hd [Hlo Hhi].
  rewrite !get_bytes_formatted_conv.
  pose proof (conv_llu_signed false digits [] Hne Hd I) as Hplus.
  pose proof (conv_llu_signed true digits [] Hne Hd I) as Hminus.
  rewrite app_nil_r in Hplus, Hminus. cbn iota in Hplus, Hminus.
  rewrite Hplus, Hminus. unfold strtoull_value.
  assert ((ULLONG_MAX <? decimal_value digits) = false) as ->
    by (apply Z.ltb_ge; exact Hhi).
  split; [reflexivity |]. do 2 f_equal.
  unfold wrap64. unfold ULLONG_MAX in Hhi.
  rewrite <- (Z.mod_add (- decimal_value digits) 1 (2 ^ 64)) by lia.
  rewrite Z.mod_small by lia. lia.
Qed.

Lemma get_bytes_formatted_sign_witness :
  get_bytes_formatted (txt "-1") 0 = Some (1, 2 ^ 64 - 1).
Proof.
  refine (proj2 (get_bytes_formatted_sign (txt "1") 0 _ _ _)).
  - discriminate.
  - repeat constructor.
  - vm_compute. split; discriminate.
Defined.

(** * Further properties of the CLI Front-End *)

Lemma bind_assoc {A B C} (m : M A) (k1 : A -> M B) (k2 : B -> M C) :
  bind (bind m k1) k2 = bind m (fun a => bind (k1 a) k2).
Proof.
  destruct m as [t [a | status |]]; cbn [bind]; try reflexivity.
  destruct (k1 a) as [t1 [b | status |]]; cbn [bind]; try reflexivity.
  destruct (k2 b) as [t2 r]. rewrite app_assoc. reflexivity.
Qed.

Lemma bind_ext {A B} (m : M A) (k k' : A -> M B) :
  (forall a, k a = k' a) -> bind m k = bind m k'.
Proof.
  intros H. destruct m as [t [a | status |]]; cbn [bind]; try reflexivity.
  rewrite H. reflexivity.
Qed.

(** The option loop over a list of returns is the loop over its first part
    followed by the loop over the rest. *)
Lemma parse_options_app (pre rest : list getopt_ret) (o : options_t) :
  parse_options (pre ++ rest) o
  = bind (parse_options pre o) (parse_options rest).
Proof.
  revert o. induction pre as [|r pre IH]; intros o.
  - cbn [app parse_options bind ret].
    destruct (parse_options rest o). reflexivity.
  - cbn [app parse_options].
    repeat match goal with
           | |- context [if ?b then _ else _] => destruct b
           end;
      rewrite ?bind_assoc; try reflexivity;
      apply bind_ext; intros a; apply IH.
Qed.

(** A valid limit argument gives the same value whatever the field held. *)
Lemma get_bytes_formatted_valid (arg : text) :
  begins_with_signed_uint arg ->
  exists v, is_llu v /\ forall bytes, get_bytes_formatted arg bytes = Some (1, v).
Proof.
  intros Hb. apply conv_llu_begins in Hb as (v & rest & Hv).
  pose proof (conv_llu_llu arg v rest Hv) as Hllu.
  destruct rest as [|unit rest].
  - exists v. split; [exact Hllu |]. intros bytes.
    rewrite get_bytes_formatted_conv, Hv. reflexivity.
  - exists (llu_mul v (get_unit_factor unit)). split; [apply wrap64_llu |].
    intros bytes. rewrite get_bytes_formatted_conv, Hv. reflexivity.
Qed.

Lemma parse_options_set_up (r : getopt_ret) (rets : list getopt_ret)
      (v : Z) (o : options_t) :
  (forall field msg, limit_option r field msg = ([], Ret v)) ->
  opt r = char_code "u" ->
  parse_options (r :: rets) o = parse_options rets (set_max_up o v).
Proof.
  intros Hlimit Hopt. cbn [parse_options]. rewrite Hopt.
  change (char_code "u" =? char_code "u") with true. cbn iota.
  rewrite Hlimit. unfold bind.
  destruct (parse_options rets (set_max_up o v)). reflexivity.
Qed.

(** X4. A limit option with a valid argument overwrites the field with the
    parsed value, whatever an earlier occurrence had set, and prints
    nothing; of two valid occurrences in a row only the second counts. *)
Theorem parse_options_valid_limit (r : getopt_ret) (rets : list getopt_ret)
        (arg : text) :
  optarg r = Some arg -> begins_with_signed_uint arg ->
  exists v,
    is_llu v
    /\ (forall bytes, get_bytes_formatted arg bytes = Some (1, v))
    /\ (forall o,
          (opt r = char_code "u" ->
             parse_options (r :: rets) o = parse_options rets (set_max_up o v))
          /\ (opt r = char_code "d" ->
             parse_options (r :: rets) o = parse_options rets (set_max_down o v))
          /\ (opt r = char_code "t" ->
             parse_options (r :: rets) o
             = parse_options rets (set_max_total o v)))
    /\ (forall r0 arg0 o,
          optarg r0 = Some arg0 -> begins_with_signed_uint arg0 ->
          opt r0 = char_code "u" -> opt r = char_code "u" ->
          parse_options (r0 :: r :: rets) o = parse_options (r :: rets) o).
Proof.
  intros Harg Hb.
  destruct (get_bytes_formatted_valid arg Hb) as (v & Hv & Hany).
  assert (forall field msg, limit_option r field msg = ([], Ret v)) as Hlimit.
  { intros field msg. unfold limit_option. rewrite Harg, Hany. reflexivity. }
  assert (forall o,
            opt r = char_code "u" ->
            parse_options (r :: rets) o = parse_options rets (set_max_up o v))
    as Hup.
  { intros o Hopt. exact (parse_options_set_up r rets v o Hlimit Hopt). }
  exists v. split; [exact Hv | split; [exact Hany | split]].
  - intros o. split; [exact (Hup o) | split]; intros Hopt;
      cbn [parse_options]; rewrite Hopt.
    + change (char_code "d" =? char_code "u") with false.
      change (char_code "d" =? char_code "d") with true. cbn iota.
      rewrite Hlimit. unfold bind.
      destruct (parse_options rets (set_max_down o v)). reflexivity.
    + change (char_code "t" =? char_code "u") with false.
      change (char_code "t" =? char_code "d") with false.
      change (char_code "t" =? char_code "t") with true. cbn iota.
      rewrite Hlimit. unfold bind.
      destruct (parse_options rets (set_max_total o v)). reflexivity.
  - intros r0 arg0 o Harg0 Hb0 Hopt0 Hopt.
    destruct (get_bytes_formatted_valid arg0 Hb0) as (v0 & _ & Hany0).
    assert (forall field msg, limit_option r0 field msg = ([], Ret v0))
      as Hlimit0.
    { intros field msg. unfold limit_option. rewrite Harg0, Hany0.
      reflexivity. }
    rewrite (parse_options_set_up r0 (r :: rets) v0 o Hlimit0 Hopt0).
    rewrite (Hup o Hopt), (Hup (set_max_up o v0) Hopt). reflexivity.
Qed.

Lemma uint_10_begins : begins_with_signed_uint (txt "10").
Proof.
  exists [], [], (txt "10").
  split; [reflexivity | split; [constructor | split; [left; reflexivity |]]].
  exists (txt "10"), [].
  split; [reflexivity | split; [discriminate | repeat constructor]].
Defined.

Lemma parse_options_valid_limit_witness :
  exists v,
    parse_options [ {| opt := char_code "u"; optarg := Some (txt "10") |} ]
                  options_init
    = ([], Ret (set_max_up options_init v)).
Proof.
  destruct (parse_options_valid_limit
              {| opt := char_code "u"; optarg := Some (txt "10") |} []
              (txt "10") eq_refl uint_10_begins) as (v & _ & _ & H & _).
  exists v. exact (proj1 (H options_init) eq_refl).
Defined.

(** X5. The help and the version options end the option loop at once: what
    came before them has been processed, the text is printed, the process
    exits with status 0, and nothing after them is looked at. The reader is
    not invoked, whether or not an interface was given. *)
Theorem parse_options_help_stops (pre post : list getopt_ret)
        (r : getopt_ret) (o o1 : options_t) (t : list event) :
  parse_options pre o = (t, Ret o1) ->
  (opt r = char_code "h" ->
     parse_options (pre ++ r :: post) o = (t ++ [EvPrint help_text], Exit 0))
  /\ (opt r = char_code "v" ->
     parse_options (pre ++ r :: post) o
     = (t ++ [EvPrint (txt "Throttler " ++ VERSION_STR ++ nl)], Exit 0))
  /\ (o = options_init ->
      forall argv netfile,
        fst (getopt_long argv optstring long_options) = pre ++ r :: post ->
        asks_help_or_version r ->
        exists text,
          main argv netfile = (t ++ [EvPrint text], Exit 0)).
Proof.
  intros Hpre.
  assert (opt r = char_code "h" ->
          parse_options (pre ++ r :: post) o
          = (t ++ [EvPrint help_text], Exit 0)) as Hh.
  { intros Hopt. rewrite parse_options_app, Hpre.
    cbn [bind parse_options]. rewrite Hopt. reflexivity. }
  assert (opt r = char_code "v" ->
          parse_options (pre ++ r :: post) o
          = (t ++ [EvPrint (txt "Throttler " ++ VERSION_STR ++ nl)], Exit 0))
    as Hv.
  { intros Hopt. rewrite parse_options_app, Hpre.
    cbn [bind parse_options]. rewrite Hopt. reflexivity. }
  split; [exact Hh | split; [exact Hv |]].
  intros -> argv netfile Hg Hask.
  assert (exists text,
            parse_options (pre ++ r :: post) options_init
            = (t ++ [EvPrint text], Exit 0)) as (text & Hrun).
  { destruct Hask as [Hopt | Hopt]; eexists; [exact (Hh Hopt) | exact (Hv Hopt)]. }
  exists text. apply main_exits_in_parse.
  unfold parse_cmd_line, parse_cmd_line_on. rewrite Hg, Hrun. reflexivity.
Qed.

Lemma parse_options_help_stops_witness :
  parse_options
    [ {| opt := char_code "u"; optarg := Some (txt "abc") |};
      {| opt := char_code "v"; optarg := None |};
      {| opt := char_code "d"; optarg := Some (txt "abc") |} ]
    options_init
  = ([EvPrint (txt "Invalid argument for max upload" ++ nl);
      EvPrint (txt "Throttler 0.1" ++ nl)],
     Exit 0).
Proof.
  refine (proj1 (proj2 (parse_options_help_stops
                          [ {| opt := char_code "u"; optarg := Some (txt "abc") |} ]
                          [ {| opt := char_code "d"; optarg := Some (txt "abc") |} ]
                          {| opt := char_code "v"; optarg := None |}
                          options_init options_init
                          [EvPrint (txt "Invalid argument for max upload" ++ nl)]
                          _)) _); reflexivity.
Defined.

(** * Whole runs of the program *)

Lemma run_scan_in_range (ds : list directive) :
  forall s acc converted,
    Forall stored_in_range acc ->
    Forall stored_in_range (snd (run_scan ds s acc converted)).
Proof.
  induction ds as [|d ds IH]; intros s acc converted Hacc; [exact Hacc |].
  destruct d as [| c | assign |]; cbn [run_scan].
  - apply IH. exact Hacc.
  - destruct s as [|x s]; [exact Hacc |].
    destruct (Ascii.eqb x c); [apply IH |]; exact Hacc.
  - destruct (conv_llu s) as [v rest | |] eqn:Hv; try exact Hacc.
    apply IH. destruct assign; [| exact Hacc].
    apply Forall_app. split; [exact Hacc |].
    constructor; [| constructor]. exact (conv_llu_llu s v rest Hv).
  - destruct s as [|x s]; [exact Hacc |].
    apply IH. apply Forall_app. split; [exact Hacc |].
    constructor; [exact I | constructor].
Qed.

Lemma read_loop_in_range (format : text) (bufs : list text) (rx tx : Z) :
  read_loop format bufs = Found rx tx -> is_llu rx /\ is_llu tx.
Proof.
  induction bufs as [|buf bufs IH]; [discriminate |].
  cbn [read_loop]. unfold sscanf.
  destruct (parse_format format) as [ds |]; [| discriminate].
  destruct (args_serve (signature ds) [TLlu; TLlu]); [| discriminate].
  pose proof (run_scan_in_range ds (c_str buf) [] false (Forall_nil _)) as Hst.
  destruct (run_scan ds (c_str buf) [] false) as [n st]. cbn [snd] in Hst.
  destruct (n =? 2); [| exact IH].
  destruct st as [|[a|] [|[b|] [|]]]; try discriminate.
  intros [= <- <-].
  rewrite !Forall_cons_iff in Hst. cbn in Hst. tauto.
Qed.

(** The reader ends in one of five ways. *)
Lemma get_dev_rx_tx_outcome (name : text) (netfile : option text) :
  reader_outcome name (get_dev_rx_tx name netfile).
Proof.
  unfold get_dev_rx_tx.
  destruct (Nat.ltb 128 (List.length (dev_format name) + 1));
    [constructor |].
  destruct netfile as [content |]; [| constructor].
  destruct (read_loop _ _) as [rx tx | |] eqn:Hloop; cbn; try constructor.
  - exact (proj1 (read_loop_in_range _ _ rx tx Hloop)).
  - exact (proj2 (read_loop_in_range _ _ rx tx Hloop)).
Qed.

(** The evaluator ends in one of four ways. *)
Lemma evaluate_bytes_outcome (o : options_t) (bytes_rx bytes_tx : Z) :
  evaluator_outcome o (evaluate_bytes o bytes_rx bytes_tx).
Proof.
  unfold evaluate_bytes.
  destruct ((max_up o =? 0) && (max_down o =? 0) && (max_total o =? 0))%bool.
  - destruct (interface o); constructor.
  - match goal with |- context [if ?b then _ else _] => destruct b end;
      constructor.
Qed.

Lemma limit_option_in_range (r : getopt_ret) (field : Z) (msg : text)
      (t : list event) (v : Z) :
  limit_option r field msg = (t, Ret v) -> is_llu field -> is_llu v.
Proof.
  unfold limit_option. destruct (optarg r) as [arg |]; [| discriminate].
  destruct (get_bytes_formatted_cases arg field)
    as [(_ & w & Hw & ->) | (_ & ->)]; cbn; intros [= _ <-]; auto.
Qed.

(** The option loop leaves the two strings alone, keeps the limits in range
    and exits with status 0 only. *)
Lemma parse_options_frame (rets : list getopt_ret) :
  forall o,
    (forall t o', parse_options rets o = (t, Ret o') ->
       interface o' = interface o /\ action o' = action o
       /\ (llu_options o -> llu_options o'))
    /\ (forall t status, parse_options rets o = (t, Exit status) -> status = 0).
Proof.
  induction rets as [|r rets IH]; intros o.
  - split; [intros t o' [= _ <-]; auto | discriminate].
  - assert (forall (field : Z) (msg : text) (set : Z -> options_t),
              (forall v, interface (set v) = interface o
                         /\ action (set v) = action o
                         /\ (llu_options o -> is_llu field -> is_llu v ->
                             llu_options (set v))) ->
              (llu_options o -> is_llu field) ->
              (forall t o',
                 (v <- limit_option r field msg ;; parse_options rets (set v))
                 = (t, Ret o') ->
                 interface o' = interface o /\ action o' = action o
                 /\ (llu_options o -> llu_options o'))
              /\ (forall t status,
                    (v <- limit_option r field msg ;; parse_options rets (set v))
                    = (t, Exit status) -> status = 0)) as Hlimit.
    { intros field msg set Hset Hfield.
      destruct (limit_option r field msg) as [t0 [v | status |]] eqn:Hl;
        cbn [bind].
      - destruct (IH (set v)) as [Hret Hexit].
        destruct (Hset v) as (Hi & Ha & Hllu).
        destruct (parse_options rets (set v)) as [t1 r1] eqn:Hp.
        split.
        + intros t o' [= _ ->].
          destruct (Hret t1 o' eq_refl) as (Hi' & Ha' & Hllu').
          split; [congruence | split; [congruence |]].
          intros Ho. apply Hllu'. apply Hllu; auto.
          exact (limit_option_in_range r field msg t0 v Hl (Hfield Ho)).
        + intros t status [= _ ->]. exact (Hexit t1 status eq_refl).
      - unfold limit_option in Hl.
        destruct (optarg r); [| discriminate Hl].
        destruct (get_bytes_formatted _ _) as [[ok w] |]; [| discriminate Hl].
        destruct (ok =? 0); discriminate Hl.
      - split; discriminate. }
    cbn [parse_options].
    destruct (opt r =? char_code "u").
    { apply Hlimit; [| intros (H & _); exact H].
      intros v. split; [reflexivity | split; [reflexivity |]].
      intros (_ & Hd & Ht) _ Hv. split; [exact Hv | split; assumption]. }
    destruct (opt r =? char_code "d").
    { apply Hlimit; [| intros (_ & H & _); exact H].
      intros v. split; [reflexivity | split; [reflexivity |]].
      intros (Hu & _ & Ht) _ Hv. split; [exact Hu | split; assumption]. }
    destruct (opt r =? char_code "t").
    { apply Hlimit; [| intros (_ & _ & H); exact H].
      intros v. split; [reflexivity | split; [reflexivity |]].
      intros (Hu & Hd & _) _ Hv. split; [exact Hu | split; assumption]. }
    destruct (opt r =? char_code "v").
    { split; [discriminate | intros t status [= _ <-]; reflexivity]. }
    destruct (opt r =? char_code "h").
    { split; [discriminate | intros t status [= _ <-]; reflexivity]. }
    rewrite bind_print. destruct (IH o) as [Hret Hexit].
    destruct (parse_options rets o) as [t1 r1]. cbn [fst snd]. split.
    + intros t o' [= _ ->]. exact (Hret t1 o' eq_refl).
    + intros t status [= _ ->]. exact (Hexit t1 status eq_refl).
Qed.

Lemma actions_prints (t : list event) : prints_only t -> actions t = [].
Proof.
  induction 1 as [|e t [s ->] _ IH]; [reflexivity | exact IH].
Qed.

Lemma options_init_llu : llu_options options_init.
Proof. unfold llu_options, is_llu, ULLONG_MAX. cbn. lia. Qed.

(** What [parse_cmd_line] hands over when it returns. *)
Lemma parse_cmd_line_on_ret (g : list getopt_ret * list text)
      (t : list event) (o : options_t) :
  parse_cmd_line_on g options_init = (t, Ret o) ->
  interface o = nth_error (snd g) 0 /\ interface o <> None
  /\ action o = nth_error (snd g) 1 /\ llu_options o.
Proof.
  unfold parse_cmd_line_on.
  destruct (parse_options_frame (fst g) options_init) as [Hret _].
  destruct (parse_options (fst g) options_init) as [t1 [o1 | status |]];
    cbn [bind]; try discriminate.
  destruct (Hret t1 o1 eq_refl) as (Hi & Ha & Hllu).
  specialize (Hllu options_init_llu). unfold parse_operands.
  destruct (snd g) as [|i [|a ops]]; cbn; try discriminate;
    intros [= _ <-]; cbn [interface action nth_error];
    (split; [reflexivity | split; [discriminate | split; [| exact Hllu]]]).
  - exact Ha.
  - reflexivity.
Qed.

Lemma parse_cmd_line_on_exit (g : list getopt_ret * list text)
      (t : list event) (status : Z) :
  parse_cmd_line_on g options_init = (t, Exit status) ->
  status = 0 \/ status = 1.
Proof.
  unfold parse_cmd_line_on.
  destruct (parse_options_frame (fst g) options_init) as [_ Hexit].
  destruct (parse_options (fst g) options_init) as [t1 [o1 | s |]];
    cbn [bind]; try discriminate.
  - unfold parse_operands.
    destruct (snd g) as [|i [|a ops]]; cbn; try discriminate.
    intros [= _ <-]. right. reflexivity.
  - intros [= _ <-]. left. exact (Hexit t1 s eq_refl).
Qed.

Lemma parse_cmd_line_defined (argv : list text) :
  snd (parse_cmd_line argv options_init) <> Undef.
Proof.
  unfold parse_cmd_line, parse_cmd_line_on.
  destruct (parse_options_cases _ (getopt_args_wf (tl argv) false) options_init)
    as [(t1 & o1 & Hp) | (t1 & Hp & _)];
    fold (getopt_long argv optstring long_options) in Hp; rewrite Hp;
    cbn [bind]; [| discriminate].
  unfold parse_operands.
  destruct (snd (getopt_long argv optstring long_options)) as [|i [|a ops]];
    cbn; discriminate.
Qed.

(** The run of [main], stage by stage. *)
Lemma main_run (argv : list text) (netfile : option text) :
  match parse_cmd_line argv options_init with
  | (t1, Ret o) =>
      match interface o with
      | None => main argv netfile = (t1, Undef)
      | Some name =>
          match get_dev_rx_tx name netfile with
          | (t2, Ret (rx, tx)) =>
              main argv netfile
              = (t1 ++ t2 ++ fst (evaluate_bytes o rx tx),
                 after_evaluation (snd (evaluate_bytes o rx tx)))
          | (t2, Exit status) => main argv netfile = (t1 ++ t2, Exit status)
          | (t2, Undef) => main argv netfile = (t1 ++ t2, Undef)
          end
      end
  | (t1, Exit status) => main argv netfile = (t1, Exit status)
  | (t1, Undef) => main argv netfile = (t1, Undef)
  end.
Proof.
  destruct (parse_cmd_line argv options_init) as [t1 [o | status |]] eqn:Hparse;
    try (unfold main, bind; rewrite Hparse; reflexivity).
  destruct (interface o) as [name |] eqn:Hname;
    [| unfold main, bind; rewrite Hparse, Hname; cbn;
       rewrite app_nil_r; reflexivity].
  destruct (get_dev_rx_tx name netfile) as [t2 [[rx tx] | status |]] eqn:Hread;
    try (unfold main, bind; rewrite Hparse, Hname, Hread; reflexivity).
  exact (main_sequence argv netfile o name rx tx t1 t2 Hparse Hname Hread).
Qed.

(** X6. When [parse_cmd_line] returns, the interface is the first operand
    of the command line, the action is the second one, or a null pointer
    when there is none, further operands are ignored, the three limits are
    values of [unsigned long long], and only diagnostics were printed. *)
Theorem parse_cmd_line_result (argv : list text) (t : list event)
        (o : options_t) :
  parse_cmd_line argv options_init = (t, Ret o) ->
  interface o = nth_error (snd (getopt_long argv optstring long_options)) 0
  /\ interface o <> None
  /\ action o = nth_error (snd (getopt_long argv optstring long_options)) 1
  /\ llu_options o
  /\ prints_only t.
Proof.
  intros Hparse.
  destruct (parse_cmd_line_on_ret _ t o Hparse) as (Hi & Hsome & Ha & Hllu).
  repeat (split; [assumption |]).
  pose proof (parse_cmd_line_prints argv options_init) as Hp.
  rewrite Hparse in Hp. exact Hp.
Qed.

Lemma parse_cmd_line_result_witness :
  exists o,
    interface o = Some (txt "eth0") /\ action o = Some (txt "reboot").
Proof.
  destruct (parse_cmd_line
              [txt "throttler"; txt "eth0"; txt "-u"; txt "1K"; txt "reboot";
               txt "ignored"] options_init) as [t [o | |]] eqn:Hparse;
    try (vm_compute in Hparse; discriminate Hparse).
  exists o.
  destruct (parse_cmd_line_result _ t o Hparse) as (Hi & _ & Ha & _).
  split; [exact Hi | exact Ha].
Defined.

Lemma evaluate_bytes_defined (o : options_t) (name : text) (rx tx : Z) :
  interface o = Some name -> snd (evaluate_bytes o rx tx) <> Undef.
Proof.
  intros Hname. unfold evaluate_bytes. rewrite Hname.
  repeat match goal with
         | |- context [if ?b then _ else _] => destruct b
         end; discriminate.
Qed.

(** X7. The process ends with status 0 or 1 and with no other status:
    [exit] is called with 0 or 1 only and [main] returns 0 only. When the
    interface operand, if there is one, is safe for the scan format, the
    behaviour of the run is defined. *)
Theorem main_exit_status (argv : list text) (netfile : option text) :
  (forall status, snd (main argv netfile) = Exit status ->
                  status = 0 \/ status = 1)
  /\ (forall z, snd (main argv netfile) = Ret z -> z = 0)
  /\ ((forall name rest,
         snd (getopt_long argv optstring long_options) = name :: rest ->
         format_safe name) ->
      snd (main argv netfile) <> Undef).
Proof.
  pose proof (main_run argv netfile) as Hrun.
  pose proof (parse_cmd_line_defined argv) as Hdef.
  destruct (parse_cmd_line argv options_init) as [t1 [o | status |]] eqn:Hparse.
  - destruct (parse_cmd_line_on_ret _ t1 o Hparse) as (Hi & Hsome & _).
    destruct (interface o) as [name |] eqn:Hname; [| now elim Hsome].
    pose proof (get_dev_rx_tx_outcome name netfile) as Hout.
    pose proof (get_dev_rx_tx_safe name netfile) as Hsafe.
    pose proof (read_loop_cases name) as Hloop.
    destruct (get_dev_rx_tx name netfile) as [t2 [[rx tx] | status |]] eqn:Hread;
      rewrite Hrun; cbn [snd].
    + pose proof (evaluate_bytes_outcome o rx tx) as Hev.
      pose proof (evaluate_bytes_defined o name rx tx Hname) as Hevd.
      destruct (evaluate_bytes o rx tx) as [t3 r3].
      cbn [snd] in *. inversion Hev; subst; cbn [after_evaluation].
      * now elim Hevd.
      * repeat split; try discriminate. intros status [= <-]. auto.
      * repeat split; try discriminate. intros z [= <-]. reflexivity.
      * repeat split; try discriminate. intros z [= <-]. reflexivity.
    + inversion Hout; subst.
      all: repeat split; try discriminate; intros s [= <-]; auto.
    + repeat split; try discriminate.
      intros Hnames Hundef.
      destruct (nth_error (snd (getopt_long argv optstring long_options)) 0)
        as [name' |] eqn:Hop; [| discriminate Hi].
      injection Hi as <-.
      destruct (snd (getopt_long argv optstring long_options))
        as [|name' rest] eqn:Hg; [discriminate Hop |].
      cbn in Hop. injection Hop as ->.
      destruct (Hnames name rest eq_refl) as [Hpct Hlen].
      specialize (Hsafe Hlen).
      destruct netfile as [content |]; [| discriminate Hsafe].
      destruct (Hloop (fgets_buffers 256 255 content) Hpct)
        as [[Hnf _] | (? & ? & ? & rx & tx & _ & _ & _ & Hf)];
        [rewrite Hnf in Hsafe | rewrite Hf in Hsafe]; discriminate Hsafe.
  - rewrite Hrun. cbn [snd]. repeat split; try discriminate.
    intros s [= <-]. exact (parse_cmd_line_on_exit _ t1 status Hparse).
  - now elim Hdef.
Qed.

Lemma main_exit_status_witness :
  snd (main [txt "throttler"; txt "eth0"] (Some eth0_line)) <> Undef.
Proof.
  refine (proj2 (proj2 (main_exit_status [txt "throttler"; txt "eth0"]
                          (Some eth0_line))) _).
  intros name rest [= <- _]. exact eth0_safe.
Defined.

(** X8. A run of the program calls [system] at most once. When it does,
    the call is the last thing the run does before [main] returns 0: the
    command is the second operand of the command line (a null pointer when
    there is none), nothing is printed after it, and the statistics file
    has been closed before. Every run that ends with status 0 leaves the
    file closed. *)
Theorem main_action_last (argv : list text) (netfile : option text)
        (t : list event) (r : result Z) :
  main argv netfile = (t, r) ->
  (actions t = []
   \/ exists t',
        t = t' ++ [EvSystem
                     (nth_error (snd (getopt_long argv optstring long_options)) 1)]
        /\ actions t' = [] /\ handle_open false t' = false /\ r = Ret 0)
  /\ (r = Ret 0 \/ r = Exit 0 -> handle_open false t = false).
Proof.
  intros Hmain.
  pose proof (main_run argv netfile) as Hrun.
  pose proof (parse_cmd_line_prints argv options_init) as Hp1.
  destruct (parse_cmd_line argv options_init) as [t1 [o | status |]] eqn:Hparse;
    cbn [fst] in Hp1.
  2,3: rewrite Hrun in Hmain; injection Hmain as <- <-;
       split; [left; exact (actions_prints t1 Hp1)
              | intros _; exact (handle_open_prints t1 false Hp1)].
  destruct (parse_cmd_line_on_ret _ t1 o Hparse) as (_ & Hsome & Ha & _).
  destruct (interface o) as [name |] eqn:Hname; [| now elim Hsome].
  pose proof (get_dev_rx_tx_outcome name netfile) as Hout.
  destruct (get_dev_rx_tx name netfile) as [t2 [[rx tx] | status |]] eqn:Hread;
    rewrite Hrun in Hmain; injection Hmain as <- <-.
  - pose proof (evaluate_bytes_outcome o rx tx) as Hev.
    inversion Hout; subst.
    assert (handle_open false (t1 ++ [EvOpen; EvClose]) = false) as Hclosed.
    { rewrite handle_open_app, (handle_open_prints t1 false Hp1). reflexivity. }
    assert (actions (t1 ++ [EvOpen; EvClose]) = []) as Hnone.
    { rewrite actions_app, (actions_prints t1 Hp1). reflexivity. }
    destruct (evaluate_bytes o rx tx) as [t3 r3].
    inversion Hev; subst; cbn [fst snd after_evaluation];
      rewrite app_assoc.
    + split; [left | intros [H | H]; discriminate H].
      rewrite app_nil_r. exact Hnone.
    + split; [left | intros _].
      * rewrite actions_app, Hnone. reflexivity.
      * rewrite handle_open_app, Hclosed. reflexivity.
    + split; [right | intros _].
      * exists (t1 ++ [EvOpen; EvClose]). rewrite Ha. auto.
      * rewrite handle_open_app, Hclosed. reflexivity.
    + split; [left | intros _]; rewrite app_nil_r; assumption.
  - inversion Hout; subst;
      (split; [left | intros [H | H]; discriminate H]);
      rewrite actions_app, (actions_prints t1 Hp1); reflexivity.
  - inversion Hout; subst;
      (split; [left | intros [H | H]; discriminate H]);
      rewrite actions_app, (actions_prints t1 Hp1); reflexivity.
Qed.

Lemma main_action_last_witness :
  handle_open false [EvOpen; EvClose; EvSystem (Some (txt "reboot"))] = false.
Proof.
  refine (proj2 (main_action_last
                   [txt "throttler"; txt "-u"; txt "1K"; txt "eth0"; txt "reboot"]
                   (Some (txt "eth0: 0 0 0 0 0 0 0 0 1025 0 0 0 0 0 0 0" ++ nl))
                   [EvOpen; EvClose; EvSystem (Some (txt "reboot"))] (Ret 0)
                   _) _).
  - vm_compute. reflexivity.
  - left. reflexivity.
Defined.

(** The counters the reader returns are values of [unsigned long long]. *)
Lemma get_dev_rx_tx_counters (name : text) (netfile : option text)
      (t : list event) (rx tx : Z) :
  get_dev_rx_tx name netfile = (t, Ret (rx, tx)) ->
  t = [EvOpen; EvClose] /\ is_llu rx /\ is_llu tx.
Proof.
  intros Hread.
  pose proof (get_dev_rx_tx_outcome name netfile) as Hout.
  rewrite Hread in Hout. inversion Hout; subst.
  split; [reflexivity | split; assumption].
Qed.

(** With counters that are not negative, a condition that holds with the
    sum reduced modulo [2^64] holds with the sum itself. *)
Lemma breach_mod64_sound (o : options_t) (bytes_rx bytes_tx : Z) :
  0 <= bytes_rx -> 0 <= bytes_tx ->
  breach_mod64 o bytes_rx bytes_tx -> breach_exact o bytes_rx bytes_tx.
Proof.
  intros Hrx Htx.
  unfold breach_mod64, breach_exact, total_exceeded_mod64, total_exceeded_exact.
  pose proof (Z.mod_le (bytes_tx + bytes_rx) (2 ^ 64) ltac:(lia) ltac:(lia))
    as Hle.
  intros [H | [H | [H1 H2]]]; [tauto | tauto |].
  right. right. split; [exact H1 | lia].
Qed.

(** X9. A run never calls [system] unless a limit is set and exceeded:
    whatever the command line and the file, when the action is run the
    program is in threshold mode and one of the three conditions holds,
    with the sum of the counters itself. In every run that reaches the
    evaluator in threshold mode the action is run exactly when a condition
    holds with the sum reduced modulo [2^64]; when the sum of the counters
    is at most [2^64 - 1], exactly when one holds with the sum itself. *)
Theorem main_action_iff_breach (argv : list text) (netfile : option text)
        (o : options_t) (name : text) (rx tx : Z) (t1 t2 : list event) :
  parse_cmd_line argv options_init = (t1, Ret o) ->
  interface o = Some name ->
  get_dev_rx_tx name netfile = (t2, Ret (rx, tx)) ->
  (actions (fst (main argv netfile)) <> [] ->
   threshold_mode o /\ breach_exact o rx tx)
  /\ (threshold_mode o ->
      (actions (fst (main argv netfile)) <> [] <-> breach_mod64 o rx tx)
      /\ (tx + rx <= ULLONG_MAX ->
          (actions (fst (main argv netfile)) <> []
           <-> breach_exact o rx tx))).
Proof.
  intros Hparse Hname Hread.
  destruct (parse_cmd_line_on_ret _ t1 o Hparse) as (_ & _ & _ & Hllu).
  destruct (get_dev_rx_tx_counters name netfile t2 rx tx Hread)
    as (Ht2 & [Hrx _] & [Htx _]).
  assert (actions (fst (main argv netfile))
          = actions (fst (evaluate_bytes o rx tx))) as Hact.
  { rewrite (main_sequence argv netfile o name rx tx t1 _ Hparse Hname Hread).
    cbn [fst]. rewrite !actions_app.
    pose proof (parse_cmd_line_prints argv options_init) as Hp.
    rewrite Hparse in Hp. rewrite (actions_prints t1 Hp), Ht2.
    reflexivity. }
  rewrite Hact. clear Hact.
  assert (threshold_mode o ->
          (actions (fst (evaluate_bytes o rx tx)) <> []
           <-> breach_mod64 o rx tx)) as Hiff
    by (intros Hmode; exact (evaluate_bytes_fires_iff o rx tx Hllu Hmode)).
  split.
  - intros Hfired.
    assert (threshold_mode o) as Hmode.
    { unfold threshold_mode, is_set.
      destruct (Z.eq_dec (max_up o) 0) as [Hu |]; [| tauto].
      destruct (Z.eq_dec (max_down o) 0) as [Hd |]; [| tauto].
      destruct (Z.eq_dec (max_total o) 0) as [Ht |]; [| tauto].
      exfalso. apply Hfired.
      rewrite (evaluate_bytes_status o rx tx
                 (conj Hu (conj Hd Ht)) name Hname).
      reflexivity. }
    split; [exact Hmode |].
    apply (breach_mod64_sound o rx tx Hrx Htx), (Hiff Hmode), Hfired.
  - intros Hmode. split; [exact (Hiff Hmode) |].
    intros Hsum. rewrite (Hiff Hmode).
    exact (breach_mod64_exact o rx tx Hrx Htx Hsum).
Qed.

Lemma main_action_iff_breach_witness :
  actions (fst (main [txt "throttler"; txt "-t"; txt "100"; txt "eth0";
                      txt "reboot"]
                     (Some (txt "eth0: 60 0 0 0 0 0 0 0 41 0 0 0 0 0 0 0"
                            ++ nl)))) <> []
  <-> breach_exact {| max_up := 0; max_down := 0; max_total := 100;
                      interface := Some (txt "eth0");
                      action := Some (txt "reboot") |} 60 41.
Proof.
  refine (proj2 (proj2 (main_action_iff_breach
                          _ _ _ (txt "eth0") 60 41 [] [EvOpen; EvClose]
                          _ _ _) _) _).
  - reflexivity.
  - reflexivity.
  - reflexivity.
  - right. right. unfold is_set. cbn. lia.
  - unfold ULLONG_MAX. lia.
Defined.

(** X10. The format is built in a buffer of 128 bytes before the file is
    opened: the reader overruns it, with undefined behaviour and before any
    other effect, exactly when the interface name is longer than 31
    characters. *)
Theorem get_dev_rx_tx_overflow (name : text) (netfile : option text) :
  get_dev_rx_tx name netfile = ([], Undef) <-> (31 < List.length name)%nat.
Proof.
  split.
  - intros Hundef.
    destruct (Nat.le_gt_cases (List.length name) 31) as [Hlen | Hlen];
      [| exact Hlen].
    rewrite (get_dev_rx_tx_safe name netfile Hlen) in Hundef.
    destruct netfile as [content |]; [| discriminate Hundef].
    destruct (read_loop _ _); discriminate Hundef.
  - intros Hlen. unfold get_dev_rx_tx. rewrite dev_format_length.
    assert (Nat.ltb 128 (List.length name + 96 + 1) = true) as ->
      by (apply Nat.ltb_lt; lia).
    reflexivity.
Qed.

Lemma get_dev_rx_tx_overflow_witness :
  get_dev_rx_tx (txt "an-interface-name-of-32-letters.") (Some eth0_line)
  = ([], Undef).
Proof.
  apply get_dev_rx_tx_overflow. cbn. lia.
Defined.

(** X11. Counters are cumulative: as long as their sum fits
    [unsigned long long], a breach persists when the counters grow. If the
    evaluator runs the action for a sample, it runs it for every sample with
    counters at least as large. *)
Theorem evaluate_bytes_monotone (o : options_t) (rx tx rx' tx' : Z) :
  llu_options o -> threshold_mode o ->
  0 <= rx <= rx' -> 0 <= tx <= tx' -> tx' + rx' <= ULLONG_MAX ->
  evaluate_bytes o rx tx = ([EvSystem (action o)], Ret tt) ->
  evaluate_bytes o rx' tx' = ([EvSystem (action o)], Ret tt).
Proof.
  intros Hllu Hmode Hrx Htx Hsum Hfire.
  apply (evaluate_bytes_fire o rx' tx' Hllu).
  assert (breach_mod64 o rx tx) as Hb.
  { apply (evaluate_bytes_fires_iff o rx tx Hllu Hmode).
    rewrite Hfire. discriminate. }
  apply breach_mod64_exact; [lia | lia | exact Hsum |].
  apply breach_mod64_exact in Hb; [| lia | lia | lia].
  unfold breach_exact, upload_exceeded, download_exceeded,
    total_exceeded_exact in *.
  destruct Hb as [[H1 H2] | [[H1 H2] | [H1 H2]]].
  - left. split; [exact H1 | lia].
  - right. left. split; [exact H1 | lia].
  - right. right. split; [exact H1 | lia].
Qed.

Lemma evaluate_bytes_monotone_witness :
  evaluate_bytes (only_total 100) 70 80
  = ([EvSystem (Some (txt "echo Throttle"))], Ret tt).
Proof.
  apply (evaluate_bytes_monotone (only_total 100) 60 41 70 80).
  - unfold llu_options, is_llu, ULLONG_MAX. cbn. lia.
  - right. right. unfold is_set. cbn. lia.
  - lia.
  - lia.
  - unfold ULLONG_MAX. lia.
  - reflexivity.
Defined.

(** * Further properties of the Counter Source Reader *)

Lemma fields_directives_app (flags1 flags2 : list bool) :
  fields_directives (flags1 ++ flags2)
  = fields_directives flags1 ++ fields_directives flags2.
Proof. unfold fields_directives. rewrite map_app, concat_app. reflexivity. Qed.

Lemma conv_llu_blank (s : text) :
  Forall (fun c => isspace c = true) s -> conv_llu s = InputFailure.
Proof.
  intros Hs. unfold conv_llu.
  rewrite <- (app_nil_r s), (skip_space_more s [] Hs). reflexivity.
Qed.

(** When the fields run out before the conversions do, the scan stops on an
    input failure with what it has assigned so far. *)
Lemma run_scan_short (flags1 flags2 : list bool) (a : bool)
      (ds : list directive) (fields : list (text * text)) (tail : text) :
  List.length flags1 = List.length fields ->
  fields_scan_ok fields tail ->
  Forall (fun c => isspace c = true) tail ->
  run_scan (fields_directives (flags1 ++ a :: flags2) ++ ds)
           (fields_text fields tail) [] false
  = (stop_count true (match flags1 with [] => false | _ :: _ => true end)
                (assigned_values flags1 fields),
     assigned_values flags1 fields).
Proof.
  intros Hlen Hok Htail.
  rewrite fields_directives_app, <- app_assoc.
  rewrite (run_scan_fields flags1 _ tail fields [] false Hlen Hok).
  cbn [fields_directives map List.concat app run_scan].
  rewrite (conv_llu_blank (skip_space tail)).
  - reflexivity.
  - destruct (skip_space_split tail) as (ws & Hsplit & _).
    rewrite Hsplit in Htail. apply Forall_app in Htail. tauto.
Qed.

Ltac scan_short Hscan Htail :=
  lazymatch goal with
  | |- context [fields_text ?fs ?tl] =>
      let k := eval cbn in (List.length fs) in
      change first_nine
        with (firstn k first_nine
              ++ nth k first_nine false :: skipn (S k) first_nine);
      rewrite (run_scan_short (firstn k first_nine)
                 (skipn (S k) first_nine) (nth k first_nine false)
                 _ fs tl eq_refl Hscan Htail)
  end; reflexivity.

(** A buffer that names the interface and ends, white-space apart, after
    fewer than nine numeric fields does not match. *)
Lemma match_line_short (name ws tail : text) (fields : list (text * text)) :
  plain_name name ->
  Forall (fun c => isspace c = true) ws ->
  (List.length fields < 9)%nat ->
  counters_ok fields tail ->
  Forall (fun c => isspace c = true) tail ->
  match_line name (ws ++ name ++ ":"%char :: fields_text fields tail) = None.
Proof.
  intros Hplain Hws Hlen Hok Htail.
  destruct Hplain as ([Hpct _] & Hsp & Hnul).
  pose proof (counters_scan_ok fields tail Hok) as Hscan.
  destruct Hok as (Hall & _ & _).
  assert (Forall (fun c => Ascii.eqb c NUL = false) (fields_text fields tail))
    as Hfnul.
  { clear Hlen Hscan.
    induction Hall as [|[sep digits] fields (Hs & _ & Hd) _ IH].
    - eapply Forall_impl; [| exact Htail]. apply space_not_NUL.
    - cbn [fields_text fst snd] in *. repeat (apply Forall_app; split).
      + eapply Forall_impl; [| exact Hs]. apply space_not_NUL.
      + eapply Forall_impl; [| exact Hd]. apply digit_not_NUL.
      + exact IH. }
  unfold match_line. rewrite c_str_id.
  2:{ repeat (apply Forall_app; split).
      - eapply Forall_impl; [| exact Hws]. apply space_not_NUL.
      - exact Hnul.
      - constructor; [reflexivity | exact Hfnul]. }
  rewrite (sscanf_dev_format name _ Hpct).
  rewrite (name_directives_plain name Hsp).
  cbn [run_scan].
  rewrite skip_space_app; [| exact Hws |].
  2:{ destruct name as [|c name]; [reflexivity |].
      cbn. exact (Forall_inv Hsp). }
  rewrite run_scan_literals_match, counters_directives_flags.
  cbn [run_scan]. rewrite Ascii.eqb_refl.
  destruct fields
    as [|f1 [|f2 [|f3 [|f4 [|f5 [|f6 [|f7 [|f8 [|f9 fields]]]]]]]]];
    [ scan_short Hscan Htail | scan_short Hscan Htail
    | scan_short Hscan Htail | scan_short Hscan Htail
    | scan_short Hscan Htail | scan_short Hscan Htail
    | scan_short Hscan Htail | scan_short Hscan Htail
    | scan_short Hscan Htail | cbn [List.length] in Hlen; lia ].
Qed.

(** X12. A line that names the interface but carries fewer than nine
    numbers does not match: the reader does not take counters from it and
    goes on with the following lines. *)
Theorem match_line_too_short (name ws tail : text)
        (fields : list (text * text)) (bufs : list text) :
  plain_name name ->
  Forall (fun c => isspace c = true) ws ->
  (List.length fields < 9)%nat ->
  counters_ok fields tail ->
  Forall (fun c => isspace c = true) tail ->
  match_line name (ws ++ name ++ ":"%char :: fields_text fields tail) = None
  /\ read_loop (dev_format name)
       ((ws ++ name ++ ":"%char :: fields_text fields tail) :: bufs)
     = read_loop (dev_format name) bufs.
Proof.
  intros Hplain Hws Hlen Hok Htail.
  pose proof (match_line_short name ws tail fields Hplain Hws Hlen Hok Htail)
    as Hnone.
  split; [exact Hnone |].
  rewrite (read_loop_step name _ bufs (proj1 (proj1 Hplain))), Hnone.
  reflexivity.
Qed.

Lemma match_line_too_short_witness :
  match_line (txt "eth0") (txt " eth0: 100 0" ++ nl) = None
  /\ read_loop (dev_format (txt "eth0")) [txt " eth0: 100 0" ++ nl; eth0_line]
     = read_loop (dev_format (txt "eth0")) [eth0_line].
Proof.
  apply (match_line_too_short (txt "eth0") (txt " ") nl
           [(txt " ", txt "100"); (txt " ", txt "0")] [eth0_line]).
  - exact eth0_plain.
  - repeat constructor.
  - cbn; lia.
  - split; [| split].
    + repeat constructor; discriminate.
    + repeat constructor; discriminate.
    + reflexivity.
  - repeat constructor.
Defined.

(** * Whole command lines *)

Lemma getopt_args_operand (a : text) (rest : list text) :
  operand a ->
  getopt_args optstring long_options (a :: rest) false
  = (fst (getopt_args optstring long_options rest false),
     a :: snd (getopt_args optstring long_options rest false)).
Proof.
  intros Hop. cbn [getopt_args].
  destruct (getopt_args optstring long_options rest false) as [rs ops].
  destruct a as [|c [|c2 a]]; [reflexivity | |].
  - destruct c as [[|] [|] [|] [|] [|] [|] [|] [|]]; reflexivity.
  - destruct c as [[|] [|] [|] [|] [|] [|] [|] [|]];
      try reflexivity. now elim Hop.
Qed.

Lemma getopt_args_operands (ops : list text) :
  Forall operand ops ->
  getopt_args optstring long_options ops false = ([], ops).
Proof.
  induction 1 as [|a ops Ha _ IH]; [reflexivity |].
  rewrite (getopt_args_operand a ops Ha), IH. reflexivity.
Qed.

Ltac getopt_call Hrest :=
  cbn [app getopt_args];
  lazymatch goal with
  | |- context [short_cluster ?a ?b ?c] =>
      let v := eval cbn in (short_cluster a b c) in
      change (short_cluster a b c) with v
  | |- context [long_arg ?a ?b ?c] =>
      let v := eval cbn in (long_arg a b c) in
      change (long_arg a b c) with v
  end;
  cbn [app getopt_args]; rewrite ?Hrest; reflexivity.

(** The four ways to give a limit option its argument deliver the same
    call of [getopt_long]. *)
Lemma getopt_args_spellings (short long : text) :
  In (short, long) limit_spellings ->
  forall (arg : text) (rest : list text),
    let calls :=
      ({| opt := char_code (nth 1 short "?"%char); optarg := Some arg |}
         :: fst (getopt_args optstring long_options rest false),
       snd (getopt_args optstring long_options rest false)) in
    getopt_args optstring long_options (short :: arg :: rest) false = calls
    /\ getopt_args optstring long_options (long :: arg :: rest) false = calls
    /\ getopt_args optstring long_options
         ((long ++ "="%char :: arg) :: rest) false = calls
    /\ (arg <> [] ->
        getopt_args optstring long_options ((short ++ arg) :: rest) false
        = calls).
Proof.
  intros Hin.
  cbn [limit_spellings In] in Hin.
  destruct Hin as [[= <- <-] | [[= <- <-] | [[= <- <-] | []]]];
    intros arg rest calls; subst calls; cbn [nth txt];
    (destruct (getopt_args optstring long_options rest false) as [rs ops]
       eqn:Hrest); cbn [fst snd];
    (split;
     [ getopt_call Hrest
     | split;
       [ getopt_call Hrest
       | split;
         [ getopt_call Hrest
         | intros Hne; destruct arg as [|a arg]; [now elim Hne |];
           getopt_call Hrest ] ] ]).
Qed.

(** X13. A limit option takes its argument in four spellings, which the
    program does not tell apart: the short option with the argument in the
    next element of [argv] or attached to it, the long option with the
    argument in the next element or after an equal sign. *)
Theorem parse_cmd_line_spellings (prog short long arg : text)
        (rest : list text) (o : options_t) :
  In (short, long) limit_spellings ->
  parse_cmd_line (prog :: long :: arg :: rest) o
  = parse_cmd_line (prog :: short :: arg :: rest) o
  /\ parse_cmd_line (prog :: (long ++ "="%char :: arg) :: rest) o
     = parse_cmd_line (prog :: short :: arg :: rest) o
  /\ (arg <> [] ->
      parse_cmd_line (prog :: (short ++ arg) :: rest) o
      = parse_cmd_line (prog :: short :: arg :: rest) o)
  /\ (forall netfile,
        main (prog :: long :: arg :: rest) netfile
        = main (prog :: short :: arg :: rest) netfile
        /\ main (prog :: (long ++ "="%char :: arg) :: rest) netfile
           = main (prog :: short :: arg :: rest) netfile).
Proof.
  intros Hin.
  destruct (getopt_args_spellings short long Hin arg rest)
    as (Hs & Hl & He & Ha).
  unfold main, parse_cmd_line, getopt_long. cbn [tl].
  rewrite Hs, Hl, He.
  split; [reflexivity | split; [reflexivity | split]].
  - intros Hne. rewrite (Ha Hne). reflexivity.
  - intros netfile. split; reflexivity.
Qed.

Lemma parse_cmd_line_spellings_witness :
  parse_cmd_line [txt "throttler"; txt "--max-up=1K"; txt "eth0"] options_init
  = parse_cmd_line [txt "throttler"; txt "-u"; txt "1K"; txt "eth0"]
      options_init.
Proof.
  exact (proj1 (proj2 (parse_cmd_line_spellings
                         (txt "throttler") (txt "-u") (txt "--max-up")
                         (txt "1K") [txt "eth0"] options_init
                         (or_introl eq_refl)))).
Defined.

(** Without options the operands alone make the options record. *)
Lemma parse_cmd_line_operands (prog name : text) (ops : list text) :
  Forall operand (name :: ops) ->
  parse_cmd_line (prog :: name :: ops) options_init
  = ([], Ret {| max_up := 0; max_down := 0; max_total := 0;
                interface := Some name; action := nth_error ops 0 |}).
Proof.
  intros Hops. unfold parse_cmd_line, getopt_long. cbn [tl].
  rewrite (getopt_args_operands _ Hops).
  destruct ops; reflexivity.
Qed.

(** X14. Called with operands only, the program is in no-threshold mode:
    once the reader has the counters of the first operand, the run prints
    the status line for it and ends with status 0. Whatever the file, the
    command given as second operand is not run. *)
Theorem main_status_run (prog name : text) (ops : list text)
        (netfile : option text) :
  Forall operand (name :: ops) ->
  (forall t rx tx,
     get_dev_rx_tx name netfile = (t, Ret (rx, tx)) ->
     main (prog :: name :: ops) netfile
     = (t ++ [EvPrint (status_line name rx tx)], Exit 0))
  /\ actions (fst (main (prog :: name :: ops) netfile)) = [].
Proof.
  intros Hops.
  pose proof (parse_cmd_line_operands prog name ops Hops) as Hparse.
  set (o := {| max_up := 0; max_down := 0; max_total := 0;
               interface := Some name; action := nth_error ops 0 |}) in *.
  assert (forall rx tx,
            evaluate_bytes o rx tx
            = ([EvPrint (status_line name rx tx)], Exit 0)) as Heval.
  { intros rx tx. apply evaluate_bytes_status; [| reflexivity].
    split; [| split]; reflexivity. }
  split.
  - intros t rx tx Hread.
    rewrite (main_sequence _ netfile o name rx tx [] t Hparse eq_refl Hread).
    rewrite Heval. reflexivity.
  - pose proof (main_run (prog :: name :: ops) netfile) as Hrun.
    rewrite Hparse in Hrun. cbn [interface o] in Hrun.
    pose proof (get_dev_rx_tx_outcome name netfile) as Hout.
    destruct (get_dev_rx_tx name netfile) as [t2 [[rx tx] | status |]];
      rewrite Hrun; cbn [fst app]; rewrite ?actions_app, ?Heval;
      inversion Hout; reflexivity.
Qed.

Lemma main_status_run_witness :
  main [txt "throttler"; txt "eth0"; txt "reboot"] (Some eth0_line)
  = ([EvOpen; EvClose; EvPrint (status_line (txt "eth0") 100 200)], Exit 0).
Proof.
  refine (proj1 (main_status_run (txt "throttler") (txt "eth0") [txt "reboot"]
                   (Some eth0_line) _) [EvOpen; EvClose] 100 200 _).
  - repeat constructor.
  - reflexivity.
Defined.

Lemma limit_option_printed (code z field : Z) (msg : text) :
  is_llu z ->
  limit_option {| opt := code; optarg := Some (print_llu z) |} field msg
  = ([], Ret z).
Proof.
  intros [Hz Hmax]. unfold limit_option. cbn [optarg].
  destruct (print_llu_value z Hz) as (Hne & Hd & Hv).
  rewrite (get_bytes_formatted_plain (print_llu z) Hne Hd), Hv.
  rewrite Z.min_l by exact Hmax. reflexivity.
Qed.

(** The three limits given in decimal with the short options. *)
Lemma parse_cmd_line_limits (prog name cmd : text) (up down total : Z) :
  is_llu up -> is_llu down -> is_llu total ->
  operand name -> operand cmd ->
  parse_cmd_line (limits_argv prog up down total name cmd) options_init
  = ([], Ret {| max_up := up; max_down := down; max_total := total;
                interface := Some name; action := Some cmd |}).
Proof.
  intros Hup Hdown Htotal Hname Hcmd.
  unfold parse_cmd_line, getopt_long, limits_argv. cbn [tl].
  rewrite (proj1 (getopt_args_spellings (txt "-u") (txt "--max-up")
                    (or_introl eq_refl) _ _)).
  rewrite (proj1 (getopt_args_spellings (txt "-d") (txt "--max-down")
                    (or_intror (or_introl eq_refl)) _ _)).
  rewrite (proj1 (getopt_args_spellings (txt "-t") (txt "--max-total")
                    (or_intror (or_intror (or_introl eq_refl))) _ _)).
  rewrite (getopt_args_operands [name; cmd])
    by (constructor; [exact Hname | constructor; [exact Hcmd | constructor]]).
  change (nth 1 (txt "-u") "?"%char) with "u"%char.
  change (nth 1 (txt "-d") "?"%char) with "d"%char.
  change (nth 1 (txt "-t") "?"%char) with "t"%char.
  unfold parse_cmd_line_on. cbn [fst snd parse_options opt].
  change (char_code "u" =? char_code "u") with true.
  change (char_code "d" =? char_code "u") with false.
  change (char_code "d" =? char_code "d") with true.
  change (char_code "t" =? char_code "u") with false.
  change (char_code "t" =? char_code "d") with false.
  change (char_code "t" =? char_code "t") with true.
  cbn iota.
  rewrite (limit_option_printed _ up _ _ Hup). cbn [bind].
  rewrite (limit_option_printed _ down _ _ Hdown). cbn [bind].
  rewrite (limit_option_printed _ total _ _ Htotal). cbn [bind].
  reflexivity.
Qed.

(** X15. The limits written in decimal on the command line are the limits
    the evaluator compares with: with the three limit options, the
    interface and the command, once the reader has the counters, the run
    calls [system] with the command exactly when the upload limit is set
    and [bytes_tx] exceeds it, the download limit is set and [bytes_rx]
    exceeds it, or the total limit is set and the sum of the counters
    reduced modulo [2^64] exceeds it; it does nothing otherwise, and [main]
    returns 0 in both cases. When the sum of the counters is at most
    [2^64 - 1] the total limit is compared with the sum itself. When the
    three limits are zero the options count as not given and the status
    line is printed. *)
Theorem main_threshold_run (prog name cmd : text) (up down total : Z)
        (netfile : option text) (t : list event) (rx tx : Z) :
  is_llu up -> is_llu down -> is_llu total ->
  operand name -> operand cmd ->
  get_dev_rx_tx name netfile = (t, Ret (rx, tx)) ->
  let o := {| max_up := up; max_down := down; max_total := total;
              interface := Some name; action := Some cmd |} in
  let run := main (limits_argv prog up down total name cmd) netfile in
  (threshold_mode o -> breach_mod64 o rx tx ->
   run = (t ++ [EvSystem (Some cmd)], Ret 0))
  /\ (threshold_mode o -> ~ breach_mod64 o rx tx -> run = (t, Ret 0))
  /\ (threshold_mode o -> tx + rx <= ULLONG_MAX ->
      (breach_exact o rx tx -> run = (t ++ [EvSystem (Some cmd)], Ret 0))
      /\ (~ breach_exact o rx tx -> run = (t, Ret 0)))
  /\ (no_threshold_mode o ->
      run = (t ++ [EvPrint (status_line name rx tx)], Exit 0)).
Proof.
  intros Hup Hdown Htotal Hname Hcmd Hread o run. subst run.
  pose proof (parse_cmd_line_limits prog name cmd up down total
                Hup Hdown Htotal Hname Hcmd) as Hparse.
  fold o in Hparse.
  destruct (get_dev_rx_tx_counters name netfile t rx tx Hread)
    as (_ & [Hrx _] & [Htx _]).
  rewrite (main_sequence _ netfile o name rx tx [] t Hparse eq_refl Hread).
  assert (llu_options o) as Hllu by (split; [| split]; assumption).
  assert (threshold_mode o -> breach_mod64 o rx tx ->
          ([] ++ t ++ fst (evaluate_bytes o rx tx),
           after_evaluation (snd (evaluate_bytes o rx tx)))
          = (t ++ [EvSystem (Some cmd)], Ret 0)) as Hfire.
  { intros _ Hb. rewrite (evaluate_bytes_fire o rx tx Hllu Hb). reflexivity. }
  assert (threshold_mode o -> ~ breach_mod64 o rx tx ->
          ([] ++ t ++ fst (evaluate_bytes o rx tx),
           after_evaluation (snd (evaluate_bytes o rx tx)))
          = (t, Ret 0)) as Hquiet.
  { intros Hmode Hb.
    rewrite (evaluate_bytes_quiescent o rx tx Hllu Hmode Hb).
    cbn [fst snd after_evaluation app]. rewrite app_nil_r. reflexivity. }
  split; [exact Hfire | split; [exact Hquiet | split]].
  - intros Hmode Hsum.
    pose proof (breach_mod64_exact o rx tx Hrx Htx Hsum) as Hex.
    split; intros Hb.
    + apply (Hfire Hmode), Hex, Hb.
    + apply (Hquiet Hmode). intros Hb'. apply Hb, Hex, Hb'.
  - intros Hmode.
    rewrite (evaluate_bytes_status o rx tx Hmode name eq_refl). reflexivity.
Qed.

Lemma main_threshold_run_witness :
  main [txt "throttler"; txt "-u"; txt "1000"; txt "-d"; txt "1000";
        txt "-t"; txt "250"; txt "eth0"; txt "reboot"] (Some eth0_line)
  = ([EvOpen; EvClose; EvSystem (Some (txt "reboot"))], Ret 0).
Proof.
  assert (forall z, 0 <= z <= 1000 -> is_llu z) as Hllu
    by (unfold is_llu, ULLONG_MAX; lia).
  refine (proj1 (proj1 (proj2 (proj2
            (main_threshold_run (txt "throttler") (txt "eth0")
               (txt "reboot") 1000 1000 250 (Some eth0_line) [EvOpen; EvClose]
               100 200 (Hllu _ _) (Hllu _ _) (Hllu _ _) I I eq_refl))) _ _) _).
  1-3: lia.
  - left. discriminate.
  - unfold ULLONG_MAX. lia.
  - right. right. split; [discriminate | reflexivity].
Defined.

(** * The buffers of the reading loop *)



(** A run of 255 characters without a newline fills one buffer. *)
Lemma fgets_buffers_full (pad rest : text) :
  pad <> [] ->
  Forall (fun c => Ascii.eqb c newline = false) pad ->
  fgets_buffers 256 (List.length pad) (pad ++ rest)
  = pad :: fgets_buffers 256 255 rest.
Proof.
  intros Hne Hnl. induction Hnl as [|c pad Hc Hnl IH]; [now elim Hne |].
  cbn [app List.length]. rewrite fgets_buffers_cons, Hc. cbn [orb].
  destruct pad as [|c' pad]; [reflexivity |].
  change (Nat.leb (S (List.length (c' :: pad))) 1) with false. cbn iota.
  replace (S (List.length (c' :: pad)) - 1)%nat
    with (List.length (c' :: pad)) by lia.
  rewrite (IH ltac:(discriminate)). reflexivity.
Qed.

(** The buffer of a line of the table that is an entry for the interface. *)
Lemma match_line_text_line (name ws tail : text)
      (fields : list (text * text)) :
  plain_name name ->
  text_line (ws ++ name ++ ":"%char :: fields_text fields tail) ->
  Forall (fun c => isspace c = true) ws ->
  List.length fields = 9%nat ->
  counters_ok fields tail ->
  match_line name ((ws ++ name ++ ":"%char :: fields_text fields tail) ++ nl)
  = Some (field_value (nth 0 fields ([], [])),
          field_value (nth 8 fields ([], []))).
Proof.
  intros Hplain (_ & _ & Hnul) Hws Hlen Hok.
  rewrite <- !app_assoc. cbn [app].
  change (":"%char :: fields_text fields tail ++ nl)
    with (":"%char :: (fields_text fields tail ++ nl)).
  assert (fields_text fields tail ++ nl = fields_text fields (tail ++ nl))
    as ->.
  { clear. induction fields as [|[sep digits] fields IH]; [reflexivity |].
    cbn [fields_text]. rewrite <- !app_assoc, IH. reflexivity. }
  apply match_line_entry; try assumption.
  - destruct Hok as (Hall & Hsep & Htail).
    split; [exact Hall | split; [exact Hsep |]].
    destruct tail; [reflexivity | exact Htail].
  - apply Forall_app. split; [| repeat constructor].
    apply Forall_app in Hnul as [_ Hnul].
    apply Forall_app in Hnul as [_ Hnul].
    apply Forall_inv_tail in Hnul.
    clear - Hnul. induction fields as [|[sep digits] fields IH];
      [exact Hnul |].
    cbn [fields_text] in Hnul.
    apply Forall_app in Hnul as [_ Hnul].
    apply Forall_app in Hnul as [_ Hnul]. exact (IH Hnul).
Qed.

(** X17. A line longer than 255 characters is scanned in pieces, each as
    if it were a line of its own: when the first 255 characters of the file
    hold no newline and do not name the interface, and an entry for the
    interface follows them on the same line, the reader returns the
    counters of that entry although the line does not begin with it. *)
Theorem get_dev_rx_tx_long_line (name pad ws tail post : text)
        (fields : list (text * text)) :
  plain_name name ->
  List.length pad = 255%nat ->
  Forall (fun c => Ascii.eqb c newline = false) pad ->
  ~ names_interface name (c_str pad) ->
  text_line (ws ++ name ++ ":"%char :: fields_text fields tail) ->
  Forall (fun c => isspace c = true) ws ->
  List.length fields = 9%nat ->
  counters_ok fields tail ->
  get_dev_rx_tx name
    (Some (pad ++ (ws ++ name ++ ":"%char :: fields_text fields tail)
               ++ nl ++ post))
  = ([EvOpen; EvClose],
     Ret (field_value (nth 0 fields ([], [])),
          field_value (nth 8 fields ([], [])))).
Proof.
  intros Hplain Hlen Hpad Hother Hline Hws Hfields Hok.
  pose proof Hplain as (Hsafe & _).
  rewrite (get_dev_rx_tx_safe name _ (proj2 Hsafe)).
  pose proof (fgets_buffers_full pad
                ((ws ++ name ++ ":"%char :: fields_text fields tail)
                   ++ nl ++ post)
                ltac:(intros ->; discriminate Hlen) Hpad) as Hfull.
  rewrite Hlen in Hfull. rewrite Hfull. clear Hfull.
  pose proof Hline as (Hlen' & Hnl & _).
  cbn [nl app].
  rewrite (fgets_buffers_line _ _ 255 Hnl ltac:(lia)).
  change (pad :: ?b :: ?bs) with ([pad] ++ b :: bs).
  erewrite read_loop_found; [reflexivity | exact (proj1 Hsafe) | |].
  - constructor; [| constructor].
    destruct (match_line name pad) as [[rx tx] |] eqn:Hm; [| reflexivity].
    elim Hother. exact (match_line_names name pad rx tx Hplain Hm).
  - exact (match_line_text_line name ws tail fields
             Hplain Hline Hws Hfields Hok).
Qed.

Lemma get_dev_rx_tx_long_line_witness :
  get_dev_rx_tx (txt "eth0")
    (Some (repeat "x"%char 255
           ++ txt " eth0: 100 0 0 0 0 0 0 0 200" ++ nl ++ txt "rest"))
  = ([EvOpen; EvClose], Ret (100, 200)).
Proof.
  refine (get_dev_rx_tx_long_line (txt "eth0") (repeat "x"%char 255)
            (txt " ") [] (txt "rest") eth0_fields eth0_plain eq_refl _ _ _ _
            eq_refl _).
  - apply Forall_forall. intros c Hc.
    apply repeat_spec in Hc. subst c. reflexivity.
  - intros Hname.
    pose proof (names_interface_prefix (txt "eth0") _
                  (proj1 (proj2 eth0_plain)) Hname) as Hp.
    vm_compute in Hp. discriminate Hp.
  - split; [cbn; lia | split; repeat constructor].
  - repeat constructor.
  - split; [| split].
    + repeat constructor; discriminate.
    + repeat constructor; discriminate.
    + exact I.
Defined.

(** * Counter Source Reader: the fatal cases *)

Lemma fields_text_app (fields : list (text * text)) (tail s : text) :
  fields_text fields tail ++ s = fields_text fields (tail ++ s).
Proof.
  induction fields as [|[sep digits] fields IH]; [reflexivity |].
  cbn [fields_text]. rewrite <- !app_assoc, IH. reflexivity.
Qed.

(** The buffer of a line that names the interface and stops short. *)
Lemma match_line_short_entry (name line : text) :
  plain_name name -> short_entry name line ->
  match_line name (line ++ nl) = None.
Proof.
  intros Hplain (ws & fields & tail & -> & Hws & Hlen & Hok & Htail).
  rewrite <- !app_assoc. cbn [app].
  change (":"%char :: fields_text fields tail ++ nl)
    with (":"%char :: (fields_text fields tail ++ nl)).
  rewrite fields_text_app.
  apply match_line_short; try assumption.
  - destruct Hok as (Hall & Hsep & _).
    split; [exact Hall | split; [exact Hsep |]].
    destruct tail as [|c tail]; [reflexivity |].
    apply space_not_digit. exact (Forall_inv Htail).
  - apply Forall_app. split; [exact Htail | repeat constructor].
Qed.

(** The buffer of a line that is an entry for the interface matches. *)
Lemma match_line_full_entry (name line : text) :
  plain_name name -> text_line line -> full_entry name line ->
  match_line name (line ++ nl) <> None.
Proof.
  intros Hplain Hline (ws & fields & tail & -> & Hws & Hlen & Hok).
  rewrite (match_line_text_line name ws tail fields Hplain Hline Hws Hlen Hok).
  discriminate.
Qed.

(** The loop stops at a buffer that matches, if there is one. *)
Lemma read_loop_exists (name : text) (bufs : list text) :
  Forall (fun c => Ascii.eqb c "%" = false) name ->
  Exists (fun b => match_line name b <> None) bufs ->
  exists rx tx, read_loop (dev_format name) bufs = Found rx tx.
Proof.
  intros Hname Hex.
  destruct (read_loop_cases name bufs Hname)
    as [[_ Hall] | (pre & buf & post & rx & tx & _ & _ & _ & Hfound)].
  - exfalso. apply Exists_exists in Hex as (b & Hin & Hb).
    rewrite Forall_forall in Hall. exact (Hb (Hall b Hin)).
  - exists rx, tx. exact Hfound.
Qed.

(** The buffers of a table of text lines. *)
Lemma fgets_buffers_table (lines : list text) :
  Forall text_line lines ->
  fgets_buffers 256 255 (unlines lines) = map (fun l => l ++ nl) lines.
Proof.
  intros Hlines.
  rewrite <- (app_nil_r (unlines lines)).
  rewrite (fgets_buffers_unlines lines [] Hlines). apply app_nil_r.
Qed.

(** C8 (as amended). For an interface name without white-space or [%] and
    of at most 31 characters, the reader ends the process in exactly two
    cases, both with exit code 1: [NETFILE] cannot be opened, with a
    diagnostic that names [NETFILE]; or the end of the file is reached
    without a line that yields counters, with a diagnostic that names the
    interface. The two diagnostics differ. On a table of text lines the
    second case occurs when every line either does not name the interface
    or names it but ends after fewer than nine numeric fields, and it does
    not occur when some line is an entry for the interface with nine
    numeric fields: then the reader returns. *)
Theorem get_dev_rx_tx_fatal (name : text) (lines : list text) :
  plain_name name -> Forall text_line lines ->
  get_dev_rx_tx name None
  = ([EvPrint (txt "Error opening " ++ NETFILE ++ txt ", permissions?" ++ nl)],
     Exit 1)
  /\ (Forall (fun l => ~ names_interface name l \/ short_entry name l) lines ->
      get_dev_rx_tx name (Some (unlines lines))
      = ([EvOpen;
          EvPrint (txt "Could not find interface " ++ name ++ txt " in "
                   ++ NETFILE ++ nl)],
         Exit 1))
  /\ (Exists (full_entry name) lines ->
      exists rx tx,
        get_dev_rx_tx name (Some (unlines lines))
        = ([EvOpen; EvClose], Ret (rx, tx)))
  /\ (forall status,
        snd (get_dev_rx_tx name (Some (unlines lines))) = Exit status ->
        Forall (fun l => ~ full_entry name l) lines)
  /\ (forall netfile status,
        snd (get_dev_rx_tx name netfile) = Exit status ->
        status = 1
        /\ ((netfile = None
             /\ fst (get_dev_rx_tx name netfile) = [EvPrint open_error])
            \/ (netfile <> None
                /\ fst (get_dev_rx_tx name netfile)
                   = [EvOpen; EvPrint (not_found_error name)])))
  /\ open_error <> not_found_error name.
Proof.
  intros Hplain Hlines.
  pose proof Hplain as ([Hpct Hlen] & _).
  assert (Exists (full_entry name) lines ->
          exists rx tx,
            get_dev_rx_tx name (Some (unlines lines))
            = ([EvOpen; EvClose], Ret (rx, tx))) as Hfound.
  { intros Hex. rewrite (get_dev_rx_tx_safe name _ Hlen).
    rewrite (fgets_buffers_table lines Hlines).
    destruct (read_loop_exists name (map (fun l => l ++ nl) lines) Hpct)
      as (rx & tx & ->); [| exists rx, tx; reflexivity].
    apply Exists_exists in Hex as (l & Hin & Hl).
    apply Exists_exists. exists (l ++ nl). split.
    - apply in_map_iff. exists l. split; [reflexivity | exact Hin].
    - rewrite Forall_forall in Hlines.
      exact (match_line_full_entry name l Hplain (Hlines l Hin) Hl). }
  split; [| split; [| split; [| split; [| split]]]].
  - rewrite (get_dev_rx_tx_safe name None Hlen). reflexivity.
  - intros Hall. rewrite (get_dev_rx_tx_safe name _ Hlen).
    rewrite (fgets_buffers_table lines Hlines).
    rewrite (read_loop_not_found name _ Hpct); [reflexivity |].
    apply Forall_map. rewrite Forall_forall in Hall, Hlines.
    apply Forall_forall. intros l Hin.
    destruct (Hall l Hin) as [Hother | Hshort].
    + exact (match_line_other name l Hplain (Hlines l Hin) Hother).
    + exact (match_line_short_entry name l Hplain Hshort).
  - exact Hfound.
  - intros status Hexit. apply Forall_forall. intros l Hin Hl.
    destruct Hfound as (rx & tx & Hret).
    + apply Exists_exists. exists l. split; assumption.
    + rewrite Hret in Hexit. discriminate Hexit.
  - intros netfile status. rewrite (get_dev_rx_tx_safe name netfile Hlen).
    destruct netfile as [content |].
    + destruct (read_loop _ _); cbn [fst snd]; try discriminate.
      intros [= <-]. split; [reflexivity |]. right.
      split; [discriminate | reflexivity].
    + cbn [fst snd]. intros [= <-]. split; [reflexivity |]. left.
      split; reflexivity.
  - discriminate.
Qed.

Lemma get_dev_rx_tx_fatal_witness :
  get_dev_rx_tx (txt "eth0") None
    = ([EvPrint (txt "Error opening /proc/net/dev, permissions?" ++ nl)], Exit 1)
  /\ get_dev_rx_tx (txt "eth0")
       (Some (unlines [header_line; eth01_line; txt " eth0: 100 0"]))
     = ([EvOpen;
         EvPrint (txt "Could not find interface eth0 in /proc/net/dev" ++ nl)],
        Exit 1).
Proof.
  assert (Forall text_line [header_line; eth01_line; txt " eth0: 100 0"])
    as Hlines.
  { repeat constructor; cbn; lia. }
  assert (forall l, is_prefix (txt "eth0:") (skip_space l) = false ->
                    ~ names_interface (txt "eth0") l) as Hnot.
  { intros l Hl Hname.
    pose proof (names_interface_prefix (txt "eth0") l
                  (proj1 (proj2 eth0_plain)) Hname) as Hp.
    change (txt "eth0" ++ [":"%char]) with (txt "eth0:") in Hp.
    rewrite Hl in Hp. discriminate Hp. }
  destruct (get_dev_rx_tx_fatal (txt "eth0")
              [header_line; eth01_line; txt " eth0: 100 0"]
              eth0_plain Hlines) as (Hopen & Hnone & _).
  split; [exact Hopen |].
  apply Hnone.
  constructor; [left; apply Hnot; reflexivity |].
  constructor; [left; apply Hnot; reflexivity |].
  constructor; [| constructor].
  right. exists (txt " "), [(txt " ", txt "100"); (txt " ", txt "0")], [].
  split; [reflexivity |].
  split; [repeat constructor |].
  split; [cbn; lia |].
  split; [| constructor].
  split; [| split].
  - repeat constructor; discriminate.
  - repeat constructor; discriminate.
  - exact I.
Defined.

(** C8, as stated, fails: a line that matches the interface name does not
    keep the reader from the second fatal case. The only line of the table
    names [eth0], but it carries two numbers only, and the reader ends the
    process with the diagnostic for an interface that was not found. *)
Lemma get_dev_rx_tx_fatal_named_line :
  names_interface (txt "eth0") (txt " eth0: 100 0")
  /\ get_dev_rx_tx (txt "eth0") (Some (unlines [txt " eth0: 100 0"]))
     = ([EvOpen;
         EvPrint (txt "Could not find interface eth0 in /proc/net/dev" ++ nl)],
        Exit 1).
Proof.
  split.
  - exists (txt " "), (txt " 100 0"). split; [repeat constructor | reflexivity].
  - vm_compute. reflexivity.
Qed.
